(** * Kinetic schemes for biomass pyrolysis (Blasi 1993, Liden 1988)

    A shallow embedding of the three scripts [blasi_1993.py],
    [liden_1988.py] and [kn_liden_1988.py], and the properties their
    specification states about them.

    Numbers.  The scripts compute with Python floats.  Here every float is
    a real number ([R] of the standard library): the arithmetic of the
    scripts is kept operation by operation, rounding, overflow and
    underflow are not modelled.  Every statement below is therefore a
    statement about the exact arithmetic the scripts approximate.  Where a
    property turns on what doubles do at the ends of their range, the rate
    constant is given a second time on binary64 floats, in [binary64].

    Errors.  A Python call either returns or raises; the exceptions the
    scripts can raise are the constructors of [exn], and a computation is a
    value of [result].

    Arrays.  A one-dimensional numpy array is a [list R], read with stdpp's
    lookup and written with stdpp's insert, both guarded by the bound check
    numpy performs. *)

From Stdlib Require Import Reals Lra ZArith Floats.
From stdpp Require Import base option list.

Open Scope R_scope.

Set Warnings "-inexact-float".

(** ** Python results *)

Inductive exn : Type :=
| ZeroDivisionError   (* float division by zero *)
| UnboundLocalError   (* a local variable read before any assignment *)
| IndexError          (* an array index out of bounds *)
| ValueError.         (* [np.linspace] with a negative number of samples *)

Inductive result (A : Type) : Type :=
| Ok (a : A)
| Raise (e : exn).
Arguments Ok {A} a.
Arguments Raise {A} e.

#[global] Instance result_ret : MRet result := fun A a => Ok a.
#[global] Instance result_bind : MBind result := fun A B f m =>
  match m with
  | Ok a => f a
  | Raise e => Raise e
  end.

(** [x / y] on Python floats. *)
Definition py_div (x y : R) : result R :=
  if Req_dec_T y 0 then Raise ZeroDivisionError else Ok (x / y).

(** [int(x)]: truncation towards zero. *)
Definition py_int (x : R) : Z :=
  if Rle_dec 0 x then Zfloor x else Zceil x.

(** ** numpy arrays *)

Abbreviation array := (list R).

Definition ones (n : nat) : array := replicate n 1.
Definition zeros (n : nat) : array := replicate n 0.

(** [a[i]] for a non-negative index. *)
Definition getitem (a : array) (i : nat) : result R :=
  match a !! i with
  | Some x => Ok x
  | None => Raise IndexError
  end.

(** [a[i] = x] for a non-negative index. *)
Definition setitem (a : array) (i : nat) (x : R) : result array :=
  if decide (i < length a)%nat then Ok (<[i:=x]> a) else Raise IndexError.

(** [np.linspace(start, stop, num)] with the default [endpoint=True], as
    numpy documents it: [num] evenly spaced samples over the closed interval
    from [start] to [stop], so the spacing is [(stop - start) / (num - 1)].
    A float [num] is converted with [int], as numpy did when the scripts
    were written; a negative one is refused. *)
Definition linspace (start stop num : R) : result array :=
  let n := py_int num in
  if decide (n < 0)%Z then Raise ValueError
  else
    let step := (stop - start) / (IZR n - 1) in
    Ok (map (fun i : nat => INR i * step + start) (seq 0 (Z.to_nat n))).

(** Two-dimensional arrays, a list of rows: [np.ones((r, n))],
    [np.zeros((r, n))], [a[r, i]] and [a[r, i] = x]. *)
Abbreviation array2 := (list (list R)).

Definition ones2 (r n : nat) : array2 := replicate r (ones n).
Definition zeros2 (r n : nat) : array2 := replicate r (zeros n).

Definition getitem2 (a : array2) (r i : nat) : result R :=
  match a !! r with
  | Some row => getitem row i
  | None => Raise IndexError
  end.

Definition setitem2 (a : array2) (r i : nat) (x : R) : result array2 :=
  match a !! r with
  | Some row => row' ← setitem row i x; Ok (<[r:=row']> a)
  | None => Raise IndexError
  end.

(** [for i in range(lo, lo + count): s = body(i, s)] *)
Fixpoint for_range {State : Type} (body : nat -> State -> result State)
    (lo count : nat) (s : State) : result State :=
  match count with
  | O => Ok s
  | S c => s' ← body lo s; for_range body (S lo) c s'
  end.

(** ** The Arrhenius rate constant *)

(** Every rate constant of the three scripts is written
    [A * np.exp(-E / (R * T))]. *)
Definition arrhenius (A E Rgas T : R) : result R :=
  x ← py_div (- E) (Rgas * T); Ok (A * exp x).

(** The number [arrhenius] returns when it returns. *)
Definition rate (A E Rgas T : R) : R := A * exp (- E / (Rgas * T)).

(** ** The rate constant on doubles *)

Module binary64.

(** [np.exp] on a double, where the binary64 format alone fixes the result:
    0.0 when the exact value lies below half the smallest positive double
    (arguments under -746), 1.0 when the argument is closer to 0 than 2^-54,
    inf when the exact value exceeds the largest double (arguments over
    710).  Elsewhere the result depends on how the library rounds and is
    left open. *)
Definition np_exp (x : float) : option float :=
  if (x <? -746)%float then Some 0%float
  else if (abs x <? 0x1p-54)%float then Some 1%float
  else if (710 <? x)%float then Some infinity
  else None.

(** [A * np.exp(-E / (R * T))] on doubles, with the products and the
    quotient of the machine.  The quotient raises when the product [R * T]
    is 0.0. *)
Definition arrhenius (A E Rgas T : float) : option (result float) :=
  if (Rgas * T =? 0)%float then Some (Raise ZeroDivisionError)
  else e ← np_exp (- E / (Rgas * T))%float; Some (Ok (A * e)%float).

(** The lines [K1 = K * phistar] and [K3 = K - K1] of [liden] and
    [liden2]. *)
Definition phistar : float := 0.703%float.

Definition liden_split (K : float) : float * float :=
  let K1 := (K * phistar)%float in
  let K3 := (K - K1)%float in
  (K1, K3).

End binary64.

(** ** Series *)

(** The state reached from [x] by [n] applications of a step that cannot
    fail; the loops of the scripts are compared with it. *)
Fixpoint orbit {State : Type} (f : State -> State) (x : State) (n : nat)
    : State :=
  match n with
  | O => x
  | S m => f (orbit f x m)
  end.

(** [a + b] on two numpy arrays of one length, cell by cell. *)
Definition array_add (a b : array) : array := zip_with Rplus a b.

(** The mass balance [w + g + a + c] that [liden_1988.py] prints for its
    series, and the residual of the specification, 1 minus that total. *)
Definition mass_balance (w g a c : array) : array :=
  array_add (array_add (array_add w g) a) c.

Definition residual (total : array) : array := map (fun m => 1 - m) total.

(** The total of one state of four species. *)
Definition total (x : R * R * R * R) : R := x.1.1.1 + x.1.1.2 + x.1.2 + x.2.

(** Every cell of [a] is at most the cell before it. *)
Definition non_increasing (a : array) : Prop :=
  forall (i : nat) (x y : R),
    a !! i = Some x -> a !! S i = Some y -> y <= x.

(** Every cell of [a] is at least the cell before it. *)
Definition non_decreasing (a : array) : Prop :=
  forall (i : nat) (x y : R),
    a !! i = Some x -> a !! S i = Some y -> x <= y.

(** Every cell of [a] lies between [lo] and [hi]. *)
Definition within (lo hi : R) (a : array) : Prop :=
  forall (i : nat) (x : R), a !! i = Some x -> lo <= x <= hi.

(** [a] has length [nt] and holds [g 0 .. g (i - 1)] in its first [i]
    cells. *)
Definition filled (nt i : nat) (g : nat -> R) (a : array) : Prop :=
  length a = nt /\
  forall j : nat, (j < i)%nat -> (j < nt)%nat -> a !! j = Some (g j).

(** Row [r] of [a] is [filled]. *)
Definition filled2 (nt r i : nat) (g : nat -> R) (a : array2) : Prop :=
  exists row : list R, a !! r = Some row /\ filled nt i g row.

(** [a] has three rows, row [r] filled with [g r] up to [i r]. *)
Definition rows3 (nt i0 i1 i2 : nat) (g0 g1 g2 : nat -> R) (a : array2)
    : Prop :=
  length a = 3%nat /\
  filled2 nt 0 i0 g0 a /\ filled2 nt 1 i1 g1 a /\ filled2 nt 2 i2 g2 a.

(** ** blasi_1993.py *)

Module blasi_1993.

Definition T : R := 773.        (* temperature for rate constants, K *)
Definition dt : R := 0.01.      (* time step, delta t *)
Definition tmax : R := 25.      (* max time, s *)

(** [t = np.linspace(0, tmax, num=tmax/dt)], the time vector. *)
Definition t : result array := num ← py_div tmax dt; linspace 0 tmax num.

(* A = pre-factor (1/s) and E = activation energy (kJ/mol) *)
Definition A1 : R := 1.4345e4.    (* wood -> gas *)
Definition E1 : R := 88.6.
Definition A2 : R := 4.125e6.     (* wood -> tar *)
Definition E2 : R := 112.7.
Definition A3 : R := 7.3766e5.    (* wood -> char *)
Definition E3 : R := 106.5.
Definition A4 : R := 4.28e6.      (* tar -> gas *)
Definition E4 : R := 108.
Definition A5 : R := 1.0e6.       (* tar -> char *)
Definition E5 : R := 108.
Definition Rgas : R := 0.008314.  (* universal gas constant, kJ/mol*K *)

(** The reaction rate constants [K1 .. K5] of one call, 1/s. *)
Record rate_constants : Type :=
  { K1 : R; K2 : R; K3 : R; K4 : R; K5 : R }.

Definition constants (T : R) : result rate_constants :=
  K1 ← arrhenius A1 E1 Rgas T;
  K2 ← arrhenius A2 E2 Rgas T;
  K3 ← arrhenius A3 E3 Rgas T;
  K4 ← arrhenius A4 E4 Rgas T;
  K5 ← arrhenius A5 E5 Rgas T;
  Ok {| K1 := K1; K2 := K2; K3 := K3; K4 := K4; K5 := K5 |}.

(** The [if s == 1: ... elif s == 2: ...] block and the [return] of [blasi].
    With any other [s] the names [nwood], ... are never assigned and the
    [return] raises. *)
Definition update (k : rate_constants) (wood gas tar char dt : R) (s : Z)
    : result (R * R * R * R) :=
  if (s =? 1)%Z then
    let rw := - (K1 k + K2 k + K3 k) * wood in
    let rg := K1 k * wood in
    let rt := K2 k * wood in
    let rc := K3 k * wood in
    let nwood := wood + rw * dt in
    let ngas := gas + rg * dt in
    let ntar := tar + rt * dt in
    let nchar := char + rc * dt in
    Ok (nwood, ngas, ntar, nchar)
  else if (s =? 2)%Z then
    let rw := - (K1 k + K2 k + K3 k) * wood in
    let rg := K1 k * wood + K4 k * tar in
    let rt := K2 k * wood - (K4 k + K5 k) * tar in
    let rc := K3 k * wood + K5 k * tar in
    let nwood := wood + rw * dt in
    let ngas := gas + rg * dt in
    let ntar := tar + rt * dt in
    let nchar := char + rc * dt in
    Ok (nwood, ngas, ntar, nchar)
  else Raise UnboundLocalError.

(** [blasi(wood, gas, tar, char, T, dt, s)] *)
Definition blasi (wood gas tar char T dt : R) (s : Z)
    : result (R * R * R * R) :=
  k ← constants T; update k wood gas tar char dt s.

(** The loop [for i in range(1, nt): wood[i], gas[i], tar[i], char[i] =
    step(wood[i-1], gas[i-1], tar[i-1], char[i-1])] over arrays of length
    [nt] that start as [wood = 1] and the others [0]. *)
Definition products (step : R -> R -> R -> R -> result (R * R * R * R))
    (nt : nat) : result (array * array * array * array) :=
  for_range
    (fun i '(wood, gas, tar, char) =>
       w ← getitem wood (i - 1);
       g ← getitem gas (i - 1);
       a ← getitem tar (i - 1);
       c ← getitem char (i - 1);
       '(nwood, ngas, ntar, nchar) ← step w g a c;
       wood ← setitem wood i nwood;
       gas ← setitem gas i ngas;
       tar ← setitem tar i ntar;
       char ← setitem char i nchar;
       Ok (wood, gas, tar, char))
    1 (nt - 1) (ones nt, zeros nt, zeros nt, zeros nt).

(** The script: the time vector, then the series of the primary scheme
    ([s] left at its default 1) or of the primary and secondary scheme
    ([s=2]). *)
Definition main (s : Z) : result (array * array * array * array) :=
  t ← t;
  products (fun w g a c => blasi w g a c T dt s) (length t).

(** What [constants T] returns when it returns. *)
Definition constants_at (T : R) : rate_constants :=
  {| K1 := rate A1 E1 Rgas T; K2 := rate A2 E2 Rgas T;
     K3 := rate A3 E3 Rgas T; K4 := rate A4 E4 Rgas T;
     K5 := rate A5 E5 Rgas T |}.

(** All rate constants forced to 0. *)
Definition zero_rates : rate_constants :=
  {| K1 := 0; K2 := 0; K3 := 0; K4 := 0; K5 := 0 |}.

(** One step of a fixed selector on the state [(wood, gas, tar, char)],
    without the error cases. *)
Definition euler (k : rate_constants) (dt : R) (s : Z)
    (x : R * R * R * R) : R * R * R * R :=
  let '(wood, gas, tar, char) := x in
  match update k wood gas tar char dt s with
  | Ok y => y
  | Raise _ => x
  end.

Definition initial : R * R * R * R := (1, 0, 0, 0).

End blasi_1993.

(** ** liden_1988.py *)

Module liden_1988.

Definition T : R := 773.        (* temperature for rate constants, K *)
Definition dt : R := 0.01.      (* time step, delta t *)
Definition tmax : R := 25.      (* max time, s *)

Definition t : result array := num ← py_div tmax dt; linspace 0 tmax num.

(** [liden] and [liden2] declare the same constants. *)
Definition A : R := 1.0e13.       (* wood -> tar and (gas + char) *)
Definition E : R := 183.3.
Definition A2 : R := 4.28e6.      (* tar -> gas *)
Definition E2 : R := 107.5.
Definition Rgas : R := 0.008314.  (* universal gas constant, kJ/mol*K *)
Definition phistar : R := 0.703.  (* maximum theoretical tar yield, (-) *)

Record rate_constants : Type :=
  { K : R; K1 : R; K2 : R; K3 : R }.

Definition constants (T : R) : result rate_constants :=
  K ← arrhenius A E Rgas T;       (* wood -> tar and (gas + char) *)
  let K1 := K * phistar in        (* from phistar = K1/K *)
  K2 ← arrhenius A2 E2 Rgas T;    (* tar -> gas *)
  let K3 := K - K1 in             (* from K = K1 + K3 *)
  Ok {| K := K; K1 := K1; K2 := K2; K3 := K3 |}.

Definition update (k : rate_constants) (wood gas1 tar gaschar dt : R) (s : Z)
    : result (R * R * R * R) :=
  if (s =? 1)%Z then
    let rw := - K k * wood in
    let rt := K1 k * wood in
    let rgc := K3 k * wood in
    let nwood := wood + rw * dt in
    let ngas1 := 0 in              (* no gas yield from primary reactions *)
    let ntar := tar + rt * dt in
    let ngaschar := gaschar + rgc * dt in
    Ok (nwood, ngas1, ntar, ngaschar)
  else if (s =? 2)%Z then
    let rw := - K k * wood in
    let rg := K2 k * tar in
    let rt := K1 k * wood - K2 k * tar in
    let rgc := K3 k * wood in
    let nwood := wood + rw * dt in
    let ngas1 := gas1 + rg * dt in
    let ntar := tar + rt * dt in
    let ngaschar := gaschar + rgc * dt in
    Ok (nwood, ngas1, ntar, ngaschar)
  else Raise UnboundLocalError.

(** [liden(wood, gas1, tar, gaschar, T, dt, s)] *)
Definition liden (wood gas1 tar gaschar T dt : R) (s : Z)
    : result (R * R * R * R) :=
  k ← constants T; update k wood gas1 tar gaschar dt s.

(* assume a fixed carbon to estimate individual char and gas yields *)
Definition FC : R := 0.14.               (* weight fraction of fixed carbon *)
Definition c3 : R := FC / (1 - phistar). (* char fraction of wood, (-) *)
Definition g3 : R := 1 - c3.             (* gas fraction of wood, (-) *)

(** The body of [liden2] after its rate constants.  The arguments [gas] and
    [char] are not read. *)
Definition update2 (k : rate_constants) (wood gas1 tar gaschar gas char dt : R)
    : R * R * R * R * R * R :=
  let rw := - K k * wood in
  let rg := K2 k * tar in
  let rt := K1 k * wood - K2 k * tar in
  let rgc := K3 k * wood in
  let nwood := wood + rw * dt in
  let ngas1 := gas1 + rg * dt in
  let ntar := tar + rt * dt in
  let ngaschar := gaschar + rgc * dt in
  let ngas := ngas1 + g3 * ngaschar in
  let nchar := c3 * ngaschar in
  (nwood, ngas1, ntar, ngaschar, ngas, nchar).

(** [liden2(wood, gas1, tar, gaschar, gas, char, T, dt)] *)
Definition liden2 (wood gas1 tar gaschar gas char T dt : R)
    : result (R * R * R * R * R * R) :=
  k ← constants T; Ok (update2 k wood gas1 tar gaschar gas char dt).

(** The loop of the script.  [wood], [gas1], [tar] and [gaschar] have three
    rows of length [nt]: row 0 is advanced by [step0] ([liden] with [s] left
    at 1), row 1 by [step1] ([liden] with [s=2]) and row 2, with the flat
    arrays [gas] and [char], by [step2] ([liden2]). *)
Definition products
    (step0 step1 : R -> R -> R -> R -> result (R * R * R * R))
    (step2 : R -> R -> R -> R -> R -> R -> result (R * R * R * R * R * R))
    (nt : nat)
    : result (array2 * array2 * array2 * array2 * array * array) :=
  for_range
    (fun i '(wood, gas1, tar, gaschar, gas, char) =>
       w ← getitem2 wood 0 (i - 1);
       g ← getitem2 gas1 0 (i - 1);
       a ← getitem2 tar 0 (i - 1);
       c ← getitem2 gaschar 0 (i - 1);
       '(nwood, ngas1, ntar, ngaschar) ← step0 w g a c;
       wood ← setitem2 wood 0 i nwood;
       gas1 ← setitem2 gas1 0 i ngas1;
       tar ← setitem2 tar 0 i ntar;
       gaschar ← setitem2 gaschar 0 i ngaschar;
       w ← getitem2 wood 1 (i - 1);
       g ← getitem2 gas1 1 (i - 1);
       a ← getitem2 tar 1 (i - 1);
       c ← getitem2 gaschar 1 (i - 1);
       '(nwood, ngas1, ntar, ngaschar) ← step1 w g a c;
       wood ← setitem2 wood 1 i nwood;
       gas1 ← setitem2 gas1 1 i ngas1;
       tar ← setitem2 tar 1 i ntar;
       gaschar ← setitem2 gaschar 1 i ngaschar;
       w ← getitem2 wood 2 (i - 1);
       g ← getitem2 gas1 2 (i - 1);
       a ← getitem2 tar 2 (i - 1);
       c ← getitem2 gaschar 2 (i - 1);
       x ← getitem gas (i - 1);
       y ← getitem char (i - 1);
       '(nwood, ngas1, ntar, ngaschar, ngas, nchar) ← step2 w g a c x y;
       wood ← setitem2 wood 2 i nwood;
       gas1 ← setitem2 gas1 2 i ngas1;
       tar ← setitem2 tar 2 i ntar;
       gaschar ← setitem2 gaschar 2 i ngaschar;
       gas ← setitem gas i ngas;
       char ← setitem char i nchar;
       Ok (wood, gas1, tar, gaschar, gas, char))
    1 (nt - 1)
    (ones2 3 nt, zeros2 3 nt, zeros2 3 nt, zeros2 3 nt, zeros nt, zeros nt).

Definition main
    : result (array2 * array2 * array2 * array2 * array * array) :=
  t ← t;
  products (fun w g a c => liden w g a c T dt 1)
           (fun w g a c => liden w g a c T dt 2)
           (fun w g a c x y => liden2 w g a c x y T dt)
           (length t).

Definition constants_at (T : R) : rate_constants :=
  {| K := rate A E Rgas T;
     K1 := rate A E Rgas T * phistar;
     K2 := rate A2 E2 Rgas T;
     K3 := rate A E Rgas T - rate A E Rgas T * phistar |}.

Definition zero_rates : rate_constants :=
  {| K := 0; K1 := 0; K2 := 0; K3 := 0 |}.

Definition euler (k : rate_constants) (dt : R) (s : Z)
    (x : R * R * R * R) : R * R * R * R :=
  let '(wood, gas1, tar, gaschar) := x in
  match update k wood gas1 tar gaschar dt s with
  | Ok y => y
  | Raise _ => x
  end.

Definition euler2 (k : rate_constants) (dt : R)
    (x : R * R * R * R * R * R) : R * R * R * R * R * R :=
  let '(wood, gas1, tar, gaschar, gas, char) := x in
  update2 k wood gas1 tar gaschar gas char dt.

Definition initial : R * R * R * R := (1, 0, 0, 0).
Definition initial2 : R * R * R * R * R * R := (1, 0, 0, 0, 0, 0).

End liden_1988.

(** ** kn_liden_1988.py *)

Module kn_liden_1988.

Definition T : R := 773.        (* temperature for rate constants, K *)
Definition dt : R := 0.01.      (* time step, delta t *)
Definition tmax : R := 25.      (* max time, s *)

Definition t : result array := num ← py_div tmax dt; linspace 0 tmax num.

Definition A : R := 1.0e13.       (* wood -> tar and (gas + char) *)
Definition E : R := 183.3.
Definition A2 : R := 4.28e6.      (* tar -> gas *)
Definition E2 : R := 107.5.
Definition Rgas : R := 0.008314.  (* universal gas constant, kJ/mol*K *)

Record rate_constants : Type :=
  { K : R; K2 : R }.

Definition constants (T : R) : result rate_constants :=
  K ← arrhenius A E Rgas T;
  K2 ← arrhenius A2 E2 Rgas T;
  Ok {| K := K; K2 := K2 |}.

Definition update (k : rate_constants) (wood tar dt : R) (s : Z)
    : result (R * R) :=
  if (s =? 1)%Z then
    let rw := - K k * wood in
    let rt := - K2 k * wood in
    let nwood := wood + rw * dt in
    let ntar := tar + rt * dt in
    Ok (nwood, ntar)
  else if (s =? 2)%Z then
    let rw := - K k * wood in
    let rt := - K2 k * wood in
    let nwood := wood + rw * dt in
    let ntar := tar + rt * dt in
    Ok (nwood, ntar)
  else Raise UnboundLocalError.

(** [liden(wood, tar, T, dt, s)] *)
Definition liden (wood tar T dt : R) (s : Z) : result (R * R) :=
  k ← constants T; update k wood tar dt s.

Definition products (step : R -> R -> result (R * R)) (nt : nat)
    : result (array * array) :=
  for_range
    (fun i '(wood, tar) =>
       w ← getitem wood (i - 1);
       a ← getitem tar (i - 1);
       '(nwood, ntar) ← step w a;
       wood ← setitem wood i nwood;
       tar ← setitem tar i ntar;
       Ok (wood, tar))
    1 (nt - 1) (ones nt, zeros nt).

Definition main : result (array * array) :=
  t ← t;
  products (fun w a => liden w a T dt 1) (length t).

Definition constants_at (T : R) : rate_constants :=
  {| K := rate A E Rgas T; K2 := rate A2 E2 Rgas T |}.

Definition zero_rates : rate_constants := {| K := 0; K2 := 0 |}.

Definition euler (k : rate_constants) (dt : R) (s : Z) (x : R * R) : R * R :=
  let '(wood, tar) := x in
  match update k wood tar dt s with
  | Ok y => y
  | Raise _ => x
  end.

Definition initial : R * R := (1, 0).

End kn_liden_1988.

(** * Properties *)

(** ** Worked values

    The model run on small inputs, for comparison with the scripts. *)

Lemma py_int_of_Z (z : Z) : py_int (IZR z) = z.
Proof.
  unfold py_int. destruct (Rle_dec 0 (IZR z)); [apply ZfloorZ |].
  apply Zceil_eq. lra.
Qed.

Example py_int_truncates : py_int 2.5 = 2%Z /\ py_int (-2.5) = (-2)%Z.
Proof.
  unfold py_int. split.
  - destruct (Rle_dec 0 2.5); [| lra]. apply Zfloor_eq. lra.
  - destruct (Rle_dec 0 (-2.5)); [lra |]. apply Zceil_eq. lra.
Qed.

Example linspace_five : linspace 0 1 5 = Ok [0; 0.25; 0.5; 0.75; 1].
Proof.
  unfold linspace. rewrite (py_int_of_Z 5).
  destruct (decide (5 < 0)%Z); [lia |].
  change (Z.to_nat 5) with 5%nat. cbn [seq map INR].
  repeat f_equal; lra.
Qed.

Example blasi_update_example :
  blasi_1993.update
    {| blasi_1993.K1 := 1; blasi_1993.K2 := 2; blasi_1993.K3 := 3;
       blasi_1993.K4 := 4; blasi_1993.K5 := 5 |} 1 0 0.5 0 0.1 2
  = Ok (0.4, 0.3, 0.25, 0.55).
Proof.
  cbn [blasi_1993.update Z.eqb Pos.eqb blasi_1993.K1 blasi_1993.K2
       blasi_1993.K3 blasi_1993.K4 blasi_1993.K5].
  cbv zeta. repeat f_equal; lra.
Qed.

Example kn_liden_products_example :
  kn_liden_1988.products
    (fun w a =>
       kn_liden_1988.update
         {| kn_liden_1988.K := 1; kn_liden_1988.K2 := 2 |} w a 0.5 1)
    3 = Ok ([1; 0.5; 0.25], [0; -1; -1.5]).
Proof.
  unfold kn_liden_1988.products.
  unfold kn_liden_1988.products, ones, zeros, getitem, setitem.
  repeat
    (cbn [for_range Nat.sub replicate lookup list_lookup mbind result_bind
          length kn_liden_1988.update kn_liden_1988.K kn_liden_1988.K2
          Z.eqb Pos.eqb insert list_insert];
     rewrite ?decide_True by lia).
  repeat f_equal; lra.
Qed.

(** ** Results and rate constants *)

Lemma py_div_ok (x y : R) : y <> 0 -> py_div x y = Ok (x / y).
Proof.
  intros Hy. unfold py_div.
  destruct (Req_dec_T y 0); [lra | reflexivity].
Qed.

Lemma py_div_zero (x : R) : py_div x 0 = Raise ZeroDivisionError.
Proof. unfold py_div. destruct (Req_dec_T 0 0); [reflexivity | lra]. Qed.

Lemma arrhenius_ok (A E Rgas T : R) :
  Rgas * T <> 0 -> arrhenius A E Rgas T = Ok (rate A E Rgas T).
Proof.
  intros H. unfold arrhenius, rate. rewrite (py_div_ok _ _ H). reflexivity.
Qed.

Lemma arrhenius_zero (A E Rgas : R) :
  arrhenius A E Rgas 0 = Raise ZeroDivisionError.
Proof. unfold arrhenius. rewrite Rmult_0_r, py_div_zero. reflexivity. Qed.

Lemma rate_pos (A E Rgas T : R) : 0 < A -> 0 < rate A E Rgas T.
Proof.
  intros HA. unfold rate.
  apply Rmult_lt_0_compat; [exact HA | apply exp_pos].
Qed.

Lemma rate_lt (A E Rgas T : R) :
  0 < A -> 0 < E -> 0 < Rgas * T -> rate A E Rgas T < A.
Proof.
  intros HA HE HRT. unfold rate.
  assert (Hneg : - E / (Rgas * T) < 0).
  { unfold Rdiv. rewrite <- Ropp_mult_distr_l. apply Ropp_lt_gt_0_contravar.
    apply Rmult_lt_0_compat; [exact HE | apply Rinv_0_lt_compat; exact HRT]. }
  apply exp_increasing in Hneg. rewrite exp_0 in Hneg.
  rewrite <- (Rmult_1_r A) at 2. apply Rmult_lt_compat_l; assumption.
Qed.

(** C2, as the code has it: for A > 0, E > 0, T > 0 and R = 0.008314 the
    rate constant [A * exp(-E / (R*T))] is computed without error and lies
    between 0 and A, both ends allowed.  In exact arithmetic it lies
    strictly inside ([rate_pos], [rate_lt]); on doubles both ends are
    reached ([rate_constant_bounds_attained]). *)
Theorem arrhenius_bounds (A E T : R) :
  0 < A -> 0 < E -> 0 < T ->
  exists k : R, arrhenius A E 0.008314 T = Ok k /\ 0 <= k <= A.
Proof.
  intros HA HE HT. exists (rate A E 0.008314 T).
  assert (HRT : 0 < 0.008314 * T) by (apply Rmult_lt_0_compat; lra).
  split; [apply arrhenius_ok; lra |].
  pose proof (rate_pos A E 0.008314 T HA).
  pose proof (rate_lt A E 0.008314 T HA HE HRT). lra.
Qed.

Lemma arrhenius_bounds_witness :
  exists k : R, arrhenius 4.28e6 108 0.008314 773 = Ok k /\ 0 <= k <= 4.28e6.
Proof. apply (arrhenius_bounds 4.28e6 108 773); lra. Defined.

(** C2 as stated fails on doubles.  With the constants of tar -> gas,
    A = 4.28e6 and E = 108, the exponential underflows at T = 0.001 and the
    rate constant is 0.0, not above 0; at T = 1e22 the exponential rounds to
    1.0 and the rate constant is A, not below A. *)
Lemma rate_constant_bounds_attained :
  (exists k : float,
     binary64.arrhenius 4.28e6 108 0.008314 0.001 = Some (Ok k) /\
     k = 0%float /\ (0 <? k)%float = false) /\
  (exists k : float,
     binary64.arrhenius 4.28e6 108 0.008314 1e22 = Some (Ok k) /\
     k = 4.28e6%float /\ (k <? 4.28e6)%float = false).
Proof.
  split; eexists; (split; [vm_compute; reflexivity |]);
    split; vm_compute; reflexivity.
Qed.

(** The gas constant of the scripts never cancels a non-zero temperature. *)
Lemma blasi_constants_ok (T : R) :
  T <> 0 -> blasi_1993.constants T = Ok (blasi_1993.constants_at T).
Proof.
  intros HT. unfold blasi_1993.constants.
  assert (H : blasi_1993.Rgas * T <> 0) by (unfold blasi_1993.Rgas; lra).
  rewrite !(arrhenius_ok _ _ _ _ H). reflexivity.
Qed.

Lemma liden_constants_ok (T : R) :
  T <> 0 -> liden_1988.constants T = Ok (liden_1988.constants_at T).
Proof.
  intros HT. unfold liden_1988.constants.
  assert (H : liden_1988.Rgas * T <> 0) by (unfold liden_1988.Rgas; lra).
  rewrite !(arrhenius_ok _ _ _ _ H). reflexivity.
Qed.

Lemma kn_liden_constants_ok (T : R) :
  T <> 0 -> kn_liden_1988.constants T = Ok (kn_liden_1988.constants_at T).
Proof.
  intros HT. unfold kn_liden_1988.constants.
  assert (H : kn_liden_1988.Rgas * T <> 0) by (unfold kn_liden_1988.Rgas; lra).
  rewrite !(arrhenius_ok _ _ _ _ H). reflexivity.
Qed.

Lemma blasi_constants_zero : blasi_1993.constants 0 = Raise ZeroDivisionError.
Proof.
  unfold blasi_1993.constants.
  rewrite (arrhenius_zero blasi_1993.A1). reflexivity.
Qed.

Lemma liden_constants_zero : liden_1988.constants 0 = Raise ZeroDivisionError.
Proof.
  unfold liden_1988.constants.
  rewrite (arrhenius_zero liden_1988.A). reflexivity.
Qed.

Lemma kn_liden_constants_zero :
  kn_liden_1988.constants 0 = Raise ZeroDivisionError.
Proof.
  unfold kn_liden_1988.constants.
  rewrite (arrhenius_zero kn_liden_1988.A). reflexivity.
Qed.

(** Every rate constant the scripts evaluate at a positive temperature is
    positive. *)
Lemma blasi_constants_pos (T : R) :
  let k := blasi_1993.constants_at T in
  0 < blasi_1993.K1 k /\ 0 < blasi_1993.K2 k /\ 0 < blasi_1993.K3 k /\
  0 < blasi_1993.K4 k /\ 0 < blasi_1993.K5 k.
Proof.
  cbn. repeat split; apply rate_pos;
    unfold blasi_1993.A1, blasi_1993.A2, blasi_1993.A3, blasi_1993.A4,
      blasi_1993.A5; lra.
Qed.

Lemma liden_constants_pos (T : R) :
  let k := liden_1988.constants_at T in
  0 < liden_1988.K k /\ 0 < liden_1988.K1 k /\ 0 < liden_1988.K2 k /\
  0 < liden_1988.K3 k.
Proof.
  cbn.
  assert (HK : 0 < rate liden_1988.A liden_1988.E liden_1988.Rgas T)
    by (apply rate_pos; unfold liden_1988.A; lra).
  assert (HK2 : 0 < rate liden_1988.A2 liden_1988.E2 liden_1988.Rgas T)
    by (apply rate_pos; unfold liden_1988.A2; lra).
  unfold liden_1988.phistar. repeat split; nra.
Qed.

Lemma kn_liden_constants_pos (T : R) :
  let k := kn_liden_1988.constants_at T in
  0 < kn_liden_1988.K k /\ 0 < kn_liden_1988.K2 k.
Proof.
  cbn. split; apply rate_pos;
    unfold kn_liden_1988.A, kn_liden_1988.A2; lra.
Qed.

(** ** Single steps *)

(** C1: with [s = 2], [blasi] returns the four concentrations advanced by
    [dt] times the rates [rw], [rg], [rt], [rc] of the primary and secondary
    scheme, every rate taken on the concentrations it was called with. *)
Theorem blasi_secondary_step (wood gas tar char T dt : R) :
  T <> 0 ->
  let k := blasi_1993.constants_at T in
  let K1 := blasi_1993.K1 k in
  let K2 := blasi_1993.K2 k in
  let K3 := blasi_1993.K3 k in
  let K4 := blasi_1993.K4 k in
  let K5 := blasi_1993.K5 k in
  let rw := - (K1 + K2 + K3) * wood in
  let rg := K1 * wood + K4 * tar in
  let rt := K2 * wood - (K4 + K5) * tar in
  let rc := K3 * wood + K5 * tar in
  blasi_1993.blasi wood gas tar char T dt 2 =
    Ok (wood + rw * dt, gas + rg * dt, tar + rt * dt, char + rc * dt).
Proof.
  intros HT. cbv zeta. unfold blasi_1993.blasi.
  rewrite (blasi_constants_ok T HT). reflexivity.
Qed.

Lemma blasi_secondary_step_witness :
  let k := blasi_1993.constants_at 773 in
  blasi_1993.blasi 1 0 0 0 773 0.01 2 =
    Ok (1 + - (blasi_1993.K1 k + blasi_1993.K2 k + blasi_1993.K3 k) * 1 * 0.01,
        0 + (blasi_1993.K1 k * 1 + blasi_1993.K4 k * 0) * 0.01,
        0 + (blasi_1993.K2 k * 1
             - (blasi_1993.K4 k + blasi_1993.K5 k) * 0) * 0.01,
        0 + (blasi_1993.K3 k * 1 + blasi_1993.K5 k * 0) * 0.01).
Proof. apply (blasi_secondary_step 1 0 0 0 773 0.01). lra. Defined.

(** C4, as the code has it: the constants of [liden] and [liden2] are
    derived from the one evaluated [K]: [K1 = K * 0.703] and [K3 = K - K1],
    hence [K1 + K3 = K], for every T > 0; and [K1 / K = 0.703] whenever [K]
    is not 0.  In exact arithmetic [K] is never 0; on doubles it is 0.0 once
    the exponential underflows ([liden_ratio_undefined]). *)
Theorem liden_constants_split (T : R) :
  0 < T ->
  exists k : liden_1988.rate_constants,
    liden_1988.constants T = Ok k /\
    liden_1988.K1 k = liden_1988.K k * 0.703 /\
    liden_1988.K3 k = liden_1988.K k - liden_1988.K1 k /\
    liden_1988.K1 k + liden_1988.K3 k = liden_1988.K k /\
    (liden_1988.K k <> 0 -> liden_1988.K1 k / liden_1988.K k = 0.703).
Proof.
  intros HT. exists (liden_1988.constants_at T).
  split; [apply liden_constants_ok; lra |].
  unfold liden_1988.constants_at.
  cbn [liden_1988.K liden_1988.K1 liden_1988.K3].
  unfold liden_1988.phistar.
  split; [reflexivity |]. split; [reflexivity |]. split; [lra |].
  intros HK. field. exact HK.
Qed.

Lemma liden_constants_split_witness :
  exists k : liden_1988.rate_constants,
    liden_1988.constants 773 = Ok k /\
    liden_1988.K1 k = liden_1988.K k * 0.703 /\
    liden_1988.K3 k = liden_1988.K k - liden_1988.K1 k /\
    liden_1988.K1 k + liden_1988.K3 k = liden_1988.K k /\
    (liden_1988.K k <> 0 -> liden_1988.K1 k / liden_1988.K k = 0.703).
Proof. apply (liden_constants_split 773). lra. Defined.

(** C4 as stated fails on doubles at T = 0.001: the exponential underflows,
    the overall constant of Liden is 0.0, so are K1 and K3, and the ratio
    K1 / K is 0.0 / 0.0, not a number and not 0.703. *)
Lemma liden_ratio_undefined :
  exists K K1 K3 : float,
    binary64.arrhenius 1.0e13 183.3 0.008314 0.001 = Some (Ok K) /\
    binary64.liden_split K = (K1, K3) /\
    K = 0%float /\ K1 = 0%float /\ K3 = 0%float /\
    is_nan (K1 / K)%float = true /\
    (K1 / K =? 0.703)%float = false.
Proof.
  do 3 eexists. split; [vm_compute; reflexivity |].
  split; [vm_compute; reflexivity |].
  repeat split; vm_compute; reflexivity.
Qed.

(** C5: [liden2] advances (wood, gas1, tar, gaschar) as [liden] does with
    [s = 2] and then splits the updated lump: gas = gas1' + g3 * gaschar'
    and char = c3 * gaschar', with c3 = 0.14 / (1 - 0.703) and g3 = 1 - c3,
    so that c3 + g3 = 1 and gas + char = gas1' + gaschar'. *)
Theorem liden2_gas_char_split (wood gas1 tar gaschar gas char T dt : R) :
  T <> 0 ->
  exists nwood ngas1 ntar ngaschar ngas nchar : R,
    liden_1988.liden2 wood gas1 tar gaschar gas char T dt =
      Ok (nwood, ngas1, ntar, ngaschar, ngas, nchar) /\
    liden_1988.liden wood gas1 tar gaschar T dt 2 =
      Ok (nwood, ngas1, ntar, ngaschar) /\
    ngas = ngas1 + liden_1988.g3 * ngaschar /\
    nchar = liden_1988.c3 * ngaschar /\
    liden_1988.c3 = 0.14 / (1 - 0.703) /\
    liden_1988.g3 = 1 - liden_1988.c3 /\
    liden_1988.c3 + liden_1988.g3 = 1 /\
    ngas + nchar = ngas1 + ngaschar.
Proof.
  intros HT. unfold liden_1988.liden2, liden_1988.liden.
  rewrite (liden_constants_ok T HT).
  do 6 eexists. split; [reflexivity |]. split; [reflexivity |].
  split; [reflexivity |]. split; [reflexivity |]. split; [reflexivity |].
  split; [reflexivity |]. unfold liden_1988.g3. split; ring.
Qed.

Lemma liden2_gas_char_split_witness :
  exists nwood ngas1 ntar ngaschar ngas nchar : R,
    liden_1988.liden2 1 0 0 0 0 0 773 0.01 =
      Ok (nwood, ngas1, ntar, ngaschar, ngas, nchar) /\
    liden_1988.liden 1 0 0 0 773 0.01 2 =
      Ok (nwood, ngas1, ntar, ngaschar) /\
    ngas = ngas1 + liden_1988.g3 * ngaschar /\
    nchar = liden_1988.c3 * ngaschar /\
    liden_1988.c3 = 0.14 / (1 - 0.703) /\
    liden_1988.g3 = 1 - liden_1988.c3 /\
    liden_1988.c3 + liden_1988.g3 = 1 /\
    ngas + nchar = ngas1 + ngaschar.
Proof. apply (liden2_gas_char_split 1 0 0 0 0 0 773 0.01). lra. Defined.

(** C8: in [kn_liden_1988.py] the tar rate is [-K2 * wood] under either
    selector: the step returns wood - K*wood*dt and tar - K2*wood*dt, and
    the tar it was called with enters only as the starting value. *)
Theorem kn_liden_step (wood tar T dt : R) (s : Z) :
  T <> 0 -> s = 1%Z \/ s = 2%Z ->
  let K := kn_liden_1988.K (kn_liden_1988.constants_at T) in
  let K2 := kn_liden_1988.K2 (kn_liden_1988.constants_at T) in
  kn_liden_1988.liden wood tar T dt s =
    Ok (wood - K * wood * dt, tar - K2 * wood * dt).
Proof.
  intros HT Hs. cbv zeta. unfold kn_liden_1988.liden.
  rewrite (kn_liden_constants_ok T HT).
  destruct Hs as [-> | ->];
    cbn [mbind result_bind kn_liden_1988.update Z.eqb Pos.eqb];
    cbv zeta; f_equal; f_equal; ring.
Qed.

Lemma kn_liden_step_witness :
  kn_liden_1988.liden 1 0 773 0.01 1 =
    Ok (1 - kn_liden_1988.K (kn_liden_1988.constants_at 773) * 1 * 0.01,
        0 - kn_liden_1988.K2 (kn_liden_1988.constants_at 773) * 1 * 0.01).
Proof. apply (kn_liden_step 1 0 773 0.01 1); [lra | left; reflexivity]. Defined.

(** ** The selector *)

Lemma selector_other (s : Z) :
  s <> 1%Z -> s <> 2%Z -> (s =? 1)%Z = false /\ (s =? 2)%Z = false.
Proof. intros H1 H2. split; apply Z.eqb_neq; assumption. Qed.

Lemma blasi_other_selector (wood gas tar char T dt : R) (s : Z) :
  s <> 1%Z -> s <> 2%Z ->
  blasi_1993.blasi wood gas tar char T dt s =
    Raise (if Req_dec_T T 0 then ZeroDivisionError else UnboundLocalError).
Proof.
  intros H1 H2. destruct (selector_other s H1 H2) as [E1 E2].
  unfold blasi_1993.blasi. destruct (Req_dec_T T 0) as [-> | HT].
  - rewrite blasi_constants_zero. reflexivity.
  - rewrite (blasi_constants_ok T HT). cbn [mbind result_bind].
    unfold blasi_1993.update. rewrite E1, E2. reflexivity.
Qed.

Lemma liden_other_selector (wood gas1 tar gaschar T dt : R) (s : Z) :
  s <> 1%Z -> s <> 2%Z ->
  liden_1988.liden wood gas1 tar gaschar T dt s =
    Raise (if Req_dec_T T 0 then ZeroDivisionError else UnboundLocalError).
Proof.
  intros H1 H2. destruct (selector_other s H1 H2) as [E1 E2].
  unfold liden_1988.liden. destruct (Req_dec_T T 0) as [-> | HT].
  - rewrite liden_constants_zero. reflexivity.
  - rewrite (liden_constants_ok T HT). cbn [mbind result_bind].
    unfold liden_1988.update. rewrite E1, E2. reflexivity.
Qed.

Lemma kn_liden_other_selector (wood tar T dt : R) (s : Z) :
  s <> 1%Z -> s <> 2%Z ->
  kn_liden_1988.liden wood tar T dt s =
    Raise (if Req_dec_T T 0 then ZeroDivisionError else UnboundLocalError).
Proof.
  intros H1 H2. destruct (selector_other s H1 H2) as [E1 E2].
  unfold kn_liden_1988.liden. destruct (Req_dec_T T 0) as [-> | HT].
  - rewrite kn_liden_constants_zero. reflexivity.
  - rewrite (kn_liden_constants_ok T HT). cbn [mbind result_bind].
    unfold kn_liden_1988.update. rewrite E1, E2. reflexivity.
Qed.

(** C10: with a selector that is neither 1 nor 2, [blasi] and both [liden]
    raise instead of returning; at a non-zero temperature the exception is
    the unassigned-local one of the [return] statement.  Read backwards: a
    call that returns had [s = 1] or [s = 2]. *)
Theorem selector_must_be_1_or_2
    (wood gas tar char gas1 gaschar T dt : R) (s : Z) :
  s <> 1%Z -> s <> 2%Z ->
  exists e : exn,
    (T <> 0 -> e = UnboundLocalError) /\
    blasi_1993.blasi wood gas tar char T dt s = Raise e /\
    liden_1988.liden wood gas1 tar gaschar T dt s = Raise e /\
    kn_liden_1988.liden wood tar T dt s = Raise e /\
    (forall r, blasi_1993.blasi wood gas tar char T dt s <> Ok r) /\
    (forall r, liden_1988.liden wood gas1 tar gaschar T dt s <> Ok r) /\
    (forall r, kn_liden_1988.liden wood tar T dt s <> Ok r).
Proof.
  intros H1 H2.
  exists (if Req_dec_T T 0 then ZeroDivisionError else UnboundLocalError).
  rewrite (blasi_other_selector _ _ _ _ _ _ _ H1 H2),
    (liden_other_selector _ _ _ _ _ _ _ H1 H2),
    (kn_liden_other_selector _ _ _ _ _ H1 H2).
  split; [intros HT; destruct (Req_dec_T T 0); [contradiction | reflexivity] |].
  repeat split; intros r Hr; discriminate Hr.
Qed.

Lemma selector_must_be_1_or_2_witness :
  exists e : exn,
    (773 <> 0 -> e = UnboundLocalError) /\
    blasi_1993.blasi 1 0 0 0 773 0.01 3 = Raise e /\
    liden_1988.liden 1 0 0 0 773 0.01 3 = Raise e /\
    kn_liden_1988.liden 1 0 773 0.01 3 = Raise e /\
    (forall r, blasi_1993.blasi 1 0 0 0 773 0.01 3 <> Ok r) /\
    (forall r, liden_1988.liden 1 0 0 0 773 0.01 3 <> Ok r) /\
    (forall r, kn_liden_1988.liden 1 0 773 0.01 3 <> Ok r).
Proof.
  apply (selector_must_be_1_or_2 1 0 0 0 0 0 773 0.01 3); discriminate.
Defined.

(** Every call with [s = 1] or [s = 2] at a non-zero temperature returns. *)
Lemma blasi_returns (wood gas tar char T dt : R) (s : Z) :
  T <> 0 -> s = 1%Z \/ s = 2%Z ->
  blasi_1993.blasi wood gas tar char T dt s =
    Ok (blasi_1993.euler (blasi_1993.constants_at T) dt s
          (wood, gas, tar, char)).
Proof.
  intros HT Hs. unfold blasi_1993.blasi. rewrite (blasi_constants_ok T HT).
  destruct Hs as [-> | ->]; reflexivity.
Qed.

Lemma liden_returns (wood gas1 tar gaschar T dt : R) (s : Z) :
  T <> 0 -> s = 1%Z \/ s = 2%Z ->
  liden_1988.liden wood gas1 tar gaschar T dt s =
    Ok (liden_1988.euler (liden_1988.constants_at T) dt s
          (wood, gas1, tar, gaschar)).
Proof.
  intros HT Hs. unfold liden_1988.liden. rewrite (liden_constants_ok T HT).
  destruct Hs as [-> | ->]; reflexivity.
Qed.

Lemma liden2_returns (wood gas1 tar gaschar gas char T dt : R) :
  T <> 0 ->
  liden_1988.liden2 wood gas1 tar gaschar gas char T dt =
    Ok (liden_1988.euler2 (liden_1988.constants_at T) dt
          (wood, gas1, tar, gaschar, gas, char)).
Proof.
  intros HT. unfold liden_1988.liden2. rewrite (liden_constants_ok T HT).
  reflexivity.
Qed.

Lemma kn_liden_returns (wood tar T dt : R) (s : Z) :
  T <> 0 -> s = 1%Z \/ s = 2%Z ->
  kn_liden_1988.liden wood tar T dt s =
    Ok (kn_liden_1988.euler (kn_liden_1988.constants_at T) dt s (wood, tar)).
Proof.
  intros HT Hs. unfold kn_liden_1988.liden.
  rewrite (kn_liden_constants_ok T HT).
  destruct Hs as [-> | ->]; reflexivity.
Qed.

(** ** Loops and arrays *)

Section Loops.

Context {State : Type}.
Variable body : nat -> State -> result State.
Variable Inv : nat -> State -> Prop.

(** A loop whose body keeps an invariant runs to its end and establishes the
    invariant at the index after the last. *)
Lemma for_range_invariant (count lo : nat) (s : State) :
  Inv lo s ->
  (forall i x, (lo <= i < lo + count)%nat -> Inv i x ->
     exists y, body i x = Ok y /\ Inv (S i) y) ->
  exists y, for_range body lo count s = Ok y /\ Inv (lo + count)%nat y.
Proof.
  revert lo s. induction count as [| c IH]; intros lo s H0 Hstep.
  - exists s. rewrite Nat.add_0_r. split; [reflexivity | exact H0].
  - destruct (Hstep lo s ltac:(lia) H0) as (y & Ey & Hy).
    destruct (IH (S lo) y Hy) as (z & Ez & Hz).
    { intros i x Hi. apply Hstep. lia. }
    exists z. cbn [for_range]. rewrite Ey. cbn [mbind result_bind].
    split; [exact Ez |]. replace (lo + S c)%nat
      with (S lo + c)%nat by lia. exact Hz.
Qed.

End Loops.

Lemma filled_ones (nt : nat) (g : nat -> R) :
  g O = 1 -> filled nt 1 g (ones nt).
Proof.
  intros Hg. split; [apply length_replicate |].
  intros j Hj Hnt. assert (j = O) as -> by lia. rewrite Hg.
  apply lookup_replicate_2. exact Hnt.
Qed.

Lemma filled_zeros (nt : nat) (g : nat -> R) :
  g O = 0 -> filled nt 1 g (zeros nt).
Proof.
  intros Hg. split; [apply length_replicate |].
  intros j Hj Hnt. assert (j = O) as -> by lia. rewrite Hg.
  apply lookup_replicate_2. exact Hnt.
Qed.

Lemma filled_getitem (nt i j : nat) (g : nat -> R) (a : list R) :
  filled nt i g a -> (j < i)%nat -> (j < nt)%nat -> getitem a j = Ok (g j).
Proof.
  intros [_ H] Hj Hnt. unfold getitem. rewrite (H j Hj Hnt). reflexivity.
Qed.

Lemma filled_insert (nt i : nat) (g : nat -> R) (a : list R) (x : R) :
  filled nt i g a -> x = g i -> filled nt (S i) g (<[i:=x]> a).
Proof.
  intros [Hlen H] ->. split; [rewrite length_insert; exact Hlen |].
  intros j Hj Hnt. destruct (decide (j = i)) as [-> | Hne].
  - apply list_lookup_insert_eq. lia.
  - rewrite list_lookup_insert_ne by congruence. apply H; lia.
Qed.

Lemma filled_setitem (nt i : nat) (g : nat -> R) (a : list R) (x : R) :
  filled nt i g a -> (i < nt)%nat -> x = g i ->
  exists a', setitem a i x = Ok a' /\ filled nt (S i) g a'.
Proof.
  intros Ha Hi Hx. exists (<[i:=x]> a). split.
  - unfold setitem. destruct Ha as [Hlen _].
    destruct (decide (i < length a)%nat); [reflexivity | lia].
  - apply filled_insert; assumption.
Qed.

(** A filled array is the list of the values it was filled with. *)
Lemma filled_all (nt i : nat) (g : nat -> R) (a : list R) :
  filled nt i g a -> (nt <= i)%nat -> a = map g (seq 0 nt).
Proof.
  intros [Hlen H] Hi. apply list_eq. intros j.
  destruct (decide (j < nt)%nat) as [Hj | Hj].
  - rewrite (H j ltac:(lia) Hj). symmetry.
    change (map g (seq 0 nt)) with (g <$> seq 0 nt).
    rewrite list_lookup_fmap.
    assert (seq 0 nt !! j = Some j) as -> by (apply lookup_seq; lia).
    reflexivity.
  - rewrite !lookup_ge_None_2; [reflexivity | | lia].
    rewrite length_map, length_seq. lia.
Qed.

Lemma filled2_getitem (nt r i j : nat) (g : nat -> R) (a : list (list R)) :
  filled2 nt r i g a -> (j < i)%nat -> (j < nt)%nat ->
  getitem2 a r j = Ok (g j).
Proof.
  intros (row & Er & Hrow) Hj Hnt. unfold getitem2. rewrite Er.
  exact (filled_getitem _ _ _ _ _ Hrow Hj Hnt).
Qed.

Lemma filled2_setitem (nt r i : nat) (g : nat -> R) (a : list (list R))
    (x : R) :
  filled2 nt r i g a -> (i < nt)%nat -> x = g i ->
  exists a',
    setitem2 a r i x = Ok a' /\
    length a' = length a /\
    filled2 nt r (S i) g a' /\
    forall r' j g', r' <> r -> filled2 nt r' j g' a -> filled2 nt r' j g' a'.
Proof.
  intros (row & Er & Hrow) Hi Hx.
  destruct (filled_setitem _ _ _ _ _ Hrow Hi Hx) as (row' & Es & Hrow').
  exists (<[r:=row']> a). split; [| split; [| split]].
  - unfold setitem2. rewrite Er, Es. reflexivity.
  - apply length_insert.
  - exists row'. split; [| exact Hrow'].
    apply list_lookup_insert_eq. apply lookup_lt_is_Some. eauto.
  - intros r' j g' Hne (row2 & E2 & H2). exists row2. split; [| exact H2].
    rewrite list_lookup_insert_ne by congruence. exact E2.
Qed.

Lemma filled2_ones (rows nt r : nat) (g : nat -> R) :
  (r < rows)%nat -> g O = 1 -> filled2 nt r 1 g (ones2 rows nt).
Proof.
  intros Hr Hg. exists (ones nt). split.
  - apply lookup_replicate_2. exact Hr.
  - apply filled_ones. exact Hg.
Qed.

Lemma filled2_zeros (rows nt r : nat) (g : nat -> R) :
  (r < rows)%nat -> g O = 0 -> filled2 nt r 1 g (zeros2 rows nt).
Proof.
  intros Hr Hg. exists (zeros nt). split.
  - apply lookup_replicate_2. exact Hr.
  - apply filled_zeros. exact Hg.
Qed.

Section Rows3.

Variables (nt : nat) (g0 g1 g2 : nat -> R).

Lemma rows3_start_ones :
  g0 O = 1 -> g1 O = 1 -> g2 O = 1 ->
  rows3 nt 1 1 1 g0 g1 g2 (ones2 3 nt).
Proof.
  intros H0 H1 H2. split; [apply length_replicate |].
  repeat split; apply filled2_ones; (lia || assumption).
Qed.

Lemma rows3_start_zeros :
  g0 O = 0 -> g1 O = 0 -> g2 O = 0 ->
  rows3 nt 1 1 1 g0 g1 g2 (zeros2 3 nt).
Proof.
  intros H0 H1 H2. split; [apply length_replicate |].
  repeat split; apply filled2_zeros; (lia || assumption).
Qed.

Lemma rows3_get0 (i0 i1 i2 j : nat) (a : list (list R)) :
  rows3 nt i0 i1 i2 g0 g1 g2 a -> (j < i0)%nat -> (j < nt)%nat ->
  getitem2 a 0 j = Ok (g0 j).
Proof. intros (_ & H & _ & _). exact (filled2_getitem _ _ _ _ _ _ H). Qed.

Lemma rows3_get1 (i0 i1 i2 j : nat) (a : list (list R)) :
  rows3 nt i0 i1 i2 g0 g1 g2 a -> (j < i1)%nat -> (j < nt)%nat ->
  getitem2 a 1 j = Ok (g1 j).
Proof. intros (_ & _ & H & _). exact (filled2_getitem _ _ _ _ _ _ H). Qed.

Lemma rows3_get2 (i0 i1 i2 j : nat) (a : list (list R)) :
  rows3 nt i0 i1 i2 g0 g1 g2 a -> (j < i2)%nat -> (j < nt)%nat ->
  getitem2 a 2 j = Ok (g2 j).
Proof. intros (_ & _ & _ & H). exact (filled2_getitem _ _ _ _ _ _ H). Qed.

Lemma rows3_set0 (i0 i1 i2 : nat) (a : list (list R)) (x : R) :
  rows3 nt i0 i1 i2 g0 g1 g2 a -> (i0 < nt)%nat -> x = g0 i0 ->
  exists a', setitem2 a 0 i0 x = Ok a' /\
             rows3 nt (S i0) i1 i2 g0 g1 g2 a'.
Proof.
  intros (Hlen & H0 & H1 & H2) Hi Hx.
  destruct (filled2_setitem _ _ _ _ _ _ H0 Hi Hx) as (a' & E & L & Hn & Hf).
  exists a'. split; [exact E |]. split; [congruence |].
  repeat split; [exact Hn | apply Hf | apply Hf]; (lia || assumption).
Qed.

Lemma rows3_set1 (i0 i1 i2 : nat) (a : list (list R)) (x : R) :
  rows3 nt i0 i1 i2 g0 g1 g2 a -> (i1 < nt)%nat -> x = g1 i1 ->
  exists a', setitem2 a 1 i1 x = Ok a' /\
             rows3 nt i0 (S i1) i2 g0 g1 g2 a'.
Proof.
  intros (Hlen & H0 & H1 & H2) Hi Hx.
  destruct (filled2_setitem _ _ _ _ _ _ H1 Hi Hx) as (a' & E & L & Hn & Hf).
  exists a'. split; [exact E |]. split; [congruence |].
  repeat split; [apply Hf | exact Hn | apply Hf]; (lia || assumption).
Qed.

Lemma rows3_set2 (i0 i1 i2 : nat) (a : list (list R)) (x : R) :
  rows3 nt i0 i1 i2 g0 g1 g2 a -> (i2 < nt)%nat -> x = g2 i2 ->
  exists a', setitem2 a 2 i2 x = Ok a' /\
             rows3 nt i0 i1 (S i2) g0 g1 g2 a'.
Proof.
  intros (Hlen & H0 & H1 & H2) Hi Hx.
  destruct (filled2_setitem _ _ _ _ _ _ H2 Hi Hx) as (a' & E & L & Hn & Hf).
  exists a'. split; [exact E |]. split; [congruence |].
  repeat split; [apply Hf | apply Hf | exact Hn]; (lia || assumption).
Qed.

Lemma rows3_all (i0 i1 i2 : nat) (a : list (list R)) :
  rows3 nt i0 i1 i2 g0 g1 g2 a ->
  (nt <= i0)%nat -> (nt <= i1)%nat -> (nt <= i2)%nat ->
  a = [map g0 (seq 0 nt); map g1 (seq 0 nt); map g2 (seq 0 nt)].
Proof.
  intros (Hlen & (r0 & E0 & H0) & (r1 & E1 & H1) & (r2 & E2 & H2)) L0 L1 L2.
  destruct a as [| a0 [| a1 [| a2 [| ? ?]]]]; try discriminate Hlen.
  cbn in E0, E1, E2. injection E0 as ->. injection E1 as ->.
  injection E2 as ->.
  rewrite (filled_all _ _ _ _ H0 L0), (filled_all _ _ _ _ H1 L1),
    (filled_all _ _ _ _ H2 L2). reflexivity.
Qed.

End Rows3.

(** ** The loops of the scripts compute the orbit of their step *)

Ltac loop_index i Hi :=
  destruct i as [| i]; [lia |];
  replace (S i - 1)%nat with i by lia.

Ltac read_cell H i :=
  rewrite (filled_getitem _ _ i _ _ H) by lia; cbn [mbind result_bind].

Ltac write_cell H a :=
  let E := fresh "E" in
  let H' := fresh "H" in
  match goal with
  | |- context [setitem _ ?i ?v] =>
      destruct (filled_setitem _ i _ _ v H) as (a & E & H');
      [ lia | | rewrite E; cbn [mbind result_bind]; clear E ]
  end.

Section BlasiProducts.

Variable step : R -> R -> R -> R -> result (R * R * R * R).
Variable f : R * R * R * R -> R * R * R * R.
Hypothesis step_f : forall w g a c, step w g a c = Ok (f (w, g, a, c)).

Lemma blasi_products_orbit (nt : nat) :
  let x := orbit f blasi_1993.initial in
  blasi_1993.products step nt =
    Ok (map (fun i => (x i).1.1.1) (seq 0 nt),
        map (fun i => (x i).1.1.2) (seq 0 nt),
        map (fun i => (x i).1.2) (seq 0 nt),
        map (fun i => (x i).2) (seq 0 nt)).
Proof.
  intros x. unfold blasi_1993.products.
  set (Inv := fun (i : nat) (st : list R * list R * list R * list R) =>
    let '(wood, gas, tar, char) := st in
    filled nt i (fun i => (x i).1.1.1) wood /\
    filled nt i (fun i => (x i).1.1.2) gas /\
    filled nt i (fun i => (x i).1.2) tar /\
    filled nt i (fun i => (x i).2) char).
  match goal with |- for_range ?b _ _ ?s = _ =>
    destruct (for_range_invariant b Inv (nt - 1) 1 s)
      as ((((wood & gas) & tar) & char) & E & Hw & Hg & Ht & Hc)
  end.
  - repeat split; try apply length_replicate;
      intros j Hj Hnt; assert (j = O) as -> by lia;
      apply lookup_replicate_2; exact Hnt.
  - intros i (((wood & gas) & tar) & char) Hi (Hw & Hg & Ht & Hc).
    loop_index i Hi.
    read_cell Hw i. read_cell Hg i. read_cell Ht i. read_cell Hc i.
    rewrite step_f. cbn [mbind result_bind].
    assert (Ex : f ((x i).1.1.1, (x i).1.1.2, (x i).1.2, (x i).2)
                 = x (S i)).
    { cbn [x orbit]. fold x. destruct (x i) as [[[? ?] ?] ?]. reflexivity. }
    rewrite Ex. destruct (x (S i)) as [[[nw ng] na] nc] eqn:Exi.
    write_cell Hw wood'; [rewrite Exi; reflexivity |].
    write_cell Hg gas'; [rewrite Exi; reflexivity |].
    write_cell Ht tar'; [rewrite Exi; reflexivity |].
    write_cell Hc char'; [rewrite Exi; reflexivity |].
    eexists. split; [reflexivity |]. cbn. auto.
  - rewrite E.
    rewrite (filled_all _ _ _ _ Hw), (filled_all _ _ _ _ Hg),
      (filled_all _ _ _ _ Ht), (filled_all _ _ _ _ Hc) by lia.
    reflexivity.
Qed.

End BlasiProducts.

Section KnLidenProducts.

Variable step : R -> R -> result (R * R).
Variable f : R * R -> R * R.
Hypothesis step_f : forall w a, step w a = Ok (f (w, a)).

Lemma kn_liden_products_orbit (nt : nat) :
  let x := orbit f kn_liden_1988.initial in
  kn_liden_1988.products step nt =
    Ok (map (fun i => (x i).1) (seq 0 nt), map (fun i => (x i).2) (seq 0 nt)).
Proof.
  intros x. unfold kn_liden_1988.products.
  set (Inv := fun (i : nat) (st : list R * list R) =>
    filled nt i (fun i => (x i).1) st.1 /\
    filled nt i (fun i => (x i).2) st.2).
  match goal with |- for_range ?b _ _ ?s = _ =>
    destruct (for_range_invariant b Inv (nt - 1) 1 s)
      as ((wood & tar) & E & Hw & Ht)
  end.
  - split; [apply filled_ones | apply filled_zeros]; reflexivity.
  - intros i (wood & tar) Hi (Hw & Ht). cbn [fst snd] in Hw, Ht.
    loop_index i Hi. read_cell Hw i. read_cell Ht i.
    rewrite step_f. cbn [mbind result_bind].
    assert (Ex : f ((x i).1, (x i).2) = x (S i)).
    { cbn [x orbit]. fold x. destruct (x i) as [? ?]. reflexivity. }
    rewrite Ex. destruct (x (S i)) as [nw na] eqn:Exi.
    write_cell Hw wood'; [rewrite Exi; reflexivity |].
    write_cell Ht tar'; [rewrite Exi; reflexivity |].
    eexists. split; [reflexivity |]. split; assumption.
  - rewrite E. cbn [fst snd] in Hw, Ht.
    rewrite (filled_all _ _ _ _ Hw), (filled_all _ _ _ _ Ht) by lia.
    reflexivity.
Qed.

End KnLidenProducts.

Ltac read_row lem H i :=
  rewrite (lem _ _ _ _ _ _ _ i _ H) by lia; cbn [mbind result_bind].

Ltac write_row lem H a :=
  let E := fresh "E" in
  let H' := fresh "H" in
  match goal with
  | |- context [setitem2 _ _ _ ?v] =>
      destruct (lem _ _ _ _ _ _ _ _ v H) as (a & E & H');
      [ lia | | rewrite E; cbn [mbind result_bind]; clear E H;
                rename H' into H ]
  end.

Section LidenProducts.

Variables step0 step1 : R -> R -> R -> R -> result (R * R * R * R).
Variable step2 :
  R -> R -> R -> R -> R -> R -> result (R * R * R * R * R * R).
Variables f0 f1 : R * R * R * R -> R * R * R * R.
Variable f2 : R * R * R * R * R * R -> R * R * R * R * R * R.
Hypothesis step0_f : forall w g a c, step0 w g a c = Ok (f0 (w, g, a, c)).
Hypothesis step1_f : forall w g a c, step1 w g a c = Ok (f1 (w, g, a, c)).
Hypothesis step2_f :
  forall w g a c x y, step2 w g a c x y = Ok (f2 (w, g, a, c, x, y)).

Lemma liden_products_orbit (nt : nat) :
  let x0 := orbit f0 liden_1988.initial in
  let x1 := orbit f1 liden_1988.initial in
  let x2 := orbit f2 liden_1988.initial2 in
  let row (g : nat -> R) := map g (seq 0 nt) in
  liden_1988.products step0 step1 step2 nt =
    Ok ([row (fun i => (x0 i).1.1.1); row (fun i => (x1 i).1.1.1);
         row (fun i => (x2 i).1.1.1.1.1)],
        [row (fun i => (x0 i).1.1.2); row (fun i => (x1 i).1.1.2);
         row (fun i => (x2 i).1.1.1.1.2)],
        [row (fun i => (x0 i).1.2); row (fun i => (x1 i).1.2);
         row (fun i => (x2 i).1.1.1.2)],
        [row (fun i => (x0 i).2); row (fun i => (x1 i).2);
         row (fun i => (x2 i).1.1.2)],
        row (fun i => (x2 i).1.2),
        row (fun i => (x2 i).2)).
Proof.
  intros x0 x1 x2 row. unfold liden_1988.products.
  set (Inv := fun (i : nat)
      (st : list (list R) * list (list R) * list (list R) * list (list R)
            * list R * list R) =>
    let '(wood, gas1, tar, gaschar, gas, char) := st in
    rows3 nt i i i (fun i => (x0 i).1.1.1) (fun i => (x1 i).1.1.1)
      (fun i => (x2 i).1.1.1.1.1) wood /\
    rows3 nt i i i (fun i => (x0 i).1.1.2) (fun i => (x1 i).1.1.2)
      (fun i => (x2 i).1.1.1.1.2) gas1 /\
    rows3 nt i i i (fun i => (x0 i).1.2) (fun i => (x1 i).1.2)
      (fun i => (x2 i).1.1.1.2) tar /\
    rows3 nt i i i (fun i => (x0 i).2) (fun i => (x1 i).2)
      (fun i => (x2 i).1.1.2) gaschar /\
    filled nt i (fun i => (x2 i).1.2) gas /\
    filled nt i (fun i => (x2 i).2) char).
  match goal with |- for_range ?b _ _ ?s = _ =>
    destruct (for_range_invariant b Inv (nt - 1) 1 s)
      as ((((((wood & gas1) & tar) & gaschar) & gas) & char)
          & E & Hw & Hg & Ht & Hc & Hx & Hy)
  end.
  - refine (conj _ (conj _ (conj _ (conj _ (conj _ _)))));
      first [ apply rows3_start_ones | apply rows3_start_zeros
            | apply filled_zeros ]; reflexivity.
  - intros i (((((wood & gas1) & tar) & gaschar) & gas) & char) Hi
      (Hw & Hg & Ht & Hc & Hx & Hy).
    loop_index i Hi.
    (* row 0 *)
    read_row rows3_get0 Hw i. read_row rows3_get0 Hg i.
    read_row rows3_get0 Ht i. read_row rows3_get0 Hc i.
    rewrite step0_f. cbn [mbind result_bind].
    assert (Ex0 : f0 ((x0 i).1.1.1, (x0 i).1.1.2, (x0 i).1.2, (x0 i).2)
                  = x0 (S i)).
    { cbn [x0 orbit]. fold x0. destruct (x0 i) as [[[? ?] ?] ?]. reflexivity. }
    rewrite Ex0. destruct (x0 (S i)) as [[[nw ng] na] nc] eqn:Exi0.
    write_row rows3_set0 Hw wood0; [rewrite Exi0; reflexivity |].
    write_row rows3_set0 Hg gas10; [rewrite Exi0; reflexivity |].
    write_row rows3_set0 Ht tar0; [rewrite Exi0; reflexivity |].
    write_row rows3_set0 Hc gaschar0; [rewrite Exi0; reflexivity |].
    (* row 1 *)
    read_row rows3_get1 Hw i. read_row rows3_get1 Hg i.
    read_row rows3_get1 Ht i. read_row rows3_get1 Hc i.
    rewrite step1_f. cbn [mbind result_bind].
    assert (Ex1 : f1 ((x1 i).1.1.1, (x1 i).1.1.2, (x1 i).1.2, (x1 i).2)
                  = x1 (S i)).
    { cbn [x1 orbit]. fold x1. destruct (x1 i) as [[[? ?] ?] ?]. reflexivity. }
    rewrite Ex1. clear nw ng na nc Exi0 Ex0.
    destruct (x1 (S i)) as [[[nw ng] na] nc] eqn:Exi1.
    write_row rows3_set1 Hw wood1; [rewrite Exi1; reflexivity |].
    write_row rows3_set1 Hg gas11; [rewrite Exi1; reflexivity |].
    write_row rows3_set1 Ht tar1; [rewrite Exi1; reflexivity |].
    write_row rows3_set1 Hc gaschar1; [rewrite Exi1; reflexivity |].
    (* row 2 and the flat arrays *)
    read_row rows3_get2 Hw i. read_row rows3_get2 Hg i.
    read_row rows3_get2 Ht i. read_row rows3_get2 Hc i.
    read_cell Hx i. read_cell Hy i.
    rewrite step2_f. cbn [mbind result_bind].
    assert (Ex2 : f2 ((x2 i).1.1.1.1.1, (x2 i).1.1.1.1.2, (x2 i).1.1.1.2,
                      (x2 i).1.1.2, (x2 i).1.2, (x2 i).2)
                  = x2 (S i)).
    { cbn [x2 orbit]. fold x2. destruct (x2 i) as [[[[[? ?] ?] ?] ?] ?].
      reflexivity. }
    rewrite Ex2. clear nw ng na nc Exi1 Ex1.
    destruct (x2 (S i)) as [[[[[nw ng] na] nc] nx] ny] eqn:Exi2.
    write_row rows3_set2 Hw wood2; [rewrite Exi2; reflexivity |].
    write_row rows3_set2 Hg gas12; [rewrite Exi2; reflexivity |].
    write_row rows3_set2 Ht tar2; [rewrite Exi2; reflexivity |].
    write_row rows3_set2 Hc gaschar2; [rewrite Exi2; reflexivity |].
    write_cell Hx gas'; [rewrite Exi2; reflexivity |].
    write_cell Hy char'; [rewrite Exi2; reflexivity |].
    eexists. split; [reflexivity |]. cbn. auto 10.
  - rewrite E.
    rewrite (rows3_all _ _ _ _ _ _ _ _ Hw), (rows3_all _ _ _ _ _ _ _ _ Hg),
      (rows3_all _ _ _ _ _ _ _ _ Ht), (rows3_all _ _ _ _ _ _ _ _ Hc),
      (filled_all _ _ _ _ Hx), (filled_all _ _ _ _ Hy) by lia.
    reflexivity.
Qed.

End LidenProducts.

(** ** Series computed cell by cell *)

Lemma array_add_map (g h : nat -> R) (n lo : nat) :
  array_add (map g (seq lo n)) (map h (seq lo n)) =
  map (fun i => g i + h i) (seq lo n).
Proof.
  revert lo. induction n as [| n IH]; intros lo; [reflexivity |].
  cbn [seq map]. unfold array_add in *. cbn [zip_with]. rewrite IH.
  reflexivity.
Qed.

Lemma mass_balance_map (w g a c : nat -> R) (n : nat) :
  mass_balance (map w (seq 0 n)) (map g (seq 0 n)) (map a (seq 0 n))
    (map c (seq 0 n)) =
  map (fun i => w i + g i + a i + c i) (seq 0 n).
Proof. unfold mass_balance. rewrite !array_add_map. reflexivity. Qed.

Lemma map_const_seq (c : R) (g : nat -> R) (n lo : nat) :
  (forall i, g i = c) -> map g (seq lo n) = replicate n c.
Proof.
  intros Hg. revert lo. induction n as [| n IH]; intros lo; [reflexivity |].
  cbn [seq map replicate]. rewrite Hg, IH. reflexivity.
Qed.

Lemma residual_of_ones (g : nat -> R) (n : nat) :
  (forall i, g i = 1) -> residual (map g (seq 0 n)) = zeros n.
Proof.
  intros Hg. unfold residual. rewrite map_map. apply map_const_seq.
  intros i. rewrite Hg. lra.
Qed.

Lemma non_increasing_map (g : nat -> R) (n : nat) :
  (forall i, g (S i) <= g i) -> non_increasing (map g (seq 0 n)).
Proof.
  intros Hg i x y Hx Hy.
  change (map g (seq 0 n)) with (g <$> seq 0 n) in Hx, Hy.
  rewrite list_lookup_fmap in Hx, Hy.
  destruct (seq 0 n !! i) as [j |] eqn:Ei; [| discriminate].
  destruct (seq 0 n !! S i) as [j' |] eqn:Ei'; [| discriminate].
  apply lookup_seq in Ei as [-> _]. apply lookup_seq in Ei' as [-> _].
  cbn in Hx, Hy. injection Hx as <-. injection Hy as <-. apply Hg.
Qed.

(** ** Mass balance *)

Lemma blasi_euler_total (k : blasi_1993.rate_constants) (dt : R) (s : Z)
    (x : R * R * R * R) :
  total (blasi_1993.euler k dt s x) = total x.
Proof.
  destruct x as [[[w g] a] c]. unfold blasi_1993.euler, blasi_1993.update.
  destruct (s =? 1)%Z; [unfold total; cbn [fst snd]; ring |].
  destruct (s =? 2)%Z; [unfold total; cbn [fst snd]; ring | reflexivity].
Qed.

Lemma liden_euler_total_2 (T dt : R) (x : R * R * R * R) :
  total (liden_1988.euler (liden_1988.constants_at T) dt 2 x) = total x.
Proof.
  destruct x as [[[w g] a] c]. unfold total. cbn [liden_1988.euler
    liden_1988.update Z.eqb Pos.eqb fst snd liden_1988.constants_at
    liden_1988.K liden_1988.K1 liden_1988.K2 liden_1988.K3].
  cbv zeta. cbn [fst snd]. ring.
Qed.

Lemma liden_euler_total_1 (T dt w g a c : R) :
  let y := liden_1988.euler (liden_1988.constants_at T) dt 1 (w, g, a, c) in
  y.1.1.2 = 0 /\ total y = w + a + c.
Proof.
  unfold total. cbn [liden_1988.euler
    liden_1988.update Z.eqb Pos.eqb fst snd liden_1988.constants_at
    liden_1988.K liden_1988.K1 liden_1988.K2 liden_1988.K3].
  cbv zeta. cbn [fst snd]. split; [reflexivity | ring].
Qed.

Lemma blasi_orbit_total (k : blasi_1993.rate_constants) (dt : R) (s : Z)
    (i : nat) :
  total (orbit (blasi_1993.euler k dt s) blasi_1993.initial i) = 1.
Proof.
  induction i as [| i IH]; cbn [orbit].
  - unfold total, blasi_1993.initial. cbn [fst snd]. lra.
  - rewrite blasi_euler_total. exact IH.
Qed.

Lemma liden_orbit_total_2 (T dt : R) (i : nat) :
  total (orbit (liden_1988.euler (liden_1988.constants_at T) dt 2)
           liden_1988.initial i) = 1.
Proof.
  induction i as [| i IH]; cbn [orbit].
  - unfold total, liden_1988.initial. cbn [fst snd]. lra.
  - rewrite liden_euler_total_2. exact IH.
Qed.

Lemma liden_orbit_total_1 (T dt : R) (i : nat) :
  let x := orbit (liden_1988.euler (liden_1988.constants_at T) dt 1)
             liden_1988.initial i in
  x.1.1.2 = 0 /\ total x = 1.
Proof.
  induction i as [| i IH]; cbn [orbit].
  - unfold total, liden_1988.initial. cbn [fst snd]. split; lra.
  - cbv zeta in IH. destruct IH as [Hg Ht].
    destruct (orbit _ liden_1988.initial i) as [[[w g] a] c].
    destruct (liden_euler_total_1 T dt w g a c) as [Hg' Ht'].
    split; [exact Hg' |]. rewrite Ht'. unfold total in Ht.
    cbn [fst snd] in Hg, Ht. lra.
Qed.

(** The six-species series: the first four species keep their total, and
    gas + char is gas1 + gaschar in every cell. *)
Lemma liden_orbit_total_split (T dt : R) (i : nat) :
  let x := orbit (liden_1988.euler2 (liden_1988.constants_at T) dt)
             liden_1988.initial2 i in
  x.1.1.1.1.1 + x.1.1.1.1.2 + x.1.1.1.2 + x.1.1.2 = 1 /\
  x.1.2 + x.2 = x.1.1.1.1.2 + x.1.1.2.
Proof.
  induction i as [| i IH]; cbn [orbit].
  - unfold liden_1988.initial2. cbn [fst snd]. split; lra.
  - cbv zeta in IH. destruct IH as [H1 H2].
    destruct (orbit _ liden_1988.initial2 i) as [[[[[w g] a] c] u] v].
    cbn [fst snd] in H1, H2.
    cbn [liden_1988.euler2 liden_1988.update2 fst snd
      liden_1988.constants_at liden_1988.K liden_1988.K1 liden_1988.K2
      liden_1988.K3].
    cbv zeta. cbn [fst snd]. unfold liden_1988.g3. split; [| ring].
    rewrite <- H1. ring.
Qed.

(** C3, as the code has it: [blasi] under either selector and [liden] with
    [s = 2] return concentrations whose total is the total they were called
    with, at every temperature above 0 and every [dt].  [liden] with
    [s = 1] returns [gas1 = 0], so its total is wood + tar + gaschar, the
    input total when the input [gas1] is 0.  In the loops of the scripts,
    which start from wood = 1 and 0 elsewhere, the residual 1 - total is 0 in
    every cell of every series, the six-species one included. *)
Theorem mass_is_conserved (wood gas tar char T dt : R) (s : Z) (nt : nat) :
  0 < T -> s = 1%Z \/ s = 2%Z ->
  (exists r, blasi_1993.blasi wood gas tar char T dt s = Ok r /\
             total r = wood + gas + tar + char) /\
  (exists r, liden_1988.liden wood gas tar char T dt 2 = Ok r /\
             total r = wood + gas + tar + char) /\
  (exists r, liden_1988.liden wood gas tar char T dt 1 = Ok r /\
             total r = wood + tar + char) /\
  (exists w g a c,
     blasi_1993.products (fun w g a c => blasi_1993.blasi w g a c T dt s) nt
       = Ok (w, g, a, c) /\
     residual (mass_balance w g a c) = zeros nt) /\
  (exists w0 w1 w2 g0 g1 g2 a0 a1 a2 c0 c1 c2 x y,
     liden_1988.products
       (fun w g a c => liden_1988.liden w g a c T dt 1)
       (fun w g a c => liden_1988.liden w g a c T dt 2)
       (fun w g a c x y => liden_1988.liden2 w g a c x y T dt) nt
       = Ok ([w0; w1; w2], [g0; g1; g2], [a0; a1; a2], [c0; c1; c2], x, y) /\
     residual (mass_balance w0 g0 a0 c0) = zeros nt /\
     residual (mass_balance w1 g1 a1 c1) = zeros nt /\
     residual (mass_balance w2 a2 x y) = zeros nt).
Proof.
  intros HT0 Hs. assert (HT : T <> 0) by lra. repeat apply conj.
  - rewrite (blasi_returns _ _ _ _ _ _ _ HT Hs). eexists.
    split; [reflexivity |]. rewrite blasi_euler_total. reflexivity.
  - rewrite (liden_returns _ _ _ _ _ _ 2 HT (or_intror eq_refl)). eexists.
    split; [reflexivity |]. rewrite liden_euler_total_2. reflexivity.
  - rewrite (liden_returns _ _ _ _ _ _ 1 HT (or_introl eq_refl)). eexists.
    split; [reflexivity |]. apply liden_euler_total_1.
  - rewrite (blasi_products_orbit _
               (blasi_1993.euler (blasi_1993.constants_at T) dt s))
      by (intros; apply blasi_returns; assumption).
    do 4 eexists. split; [reflexivity |].
    rewrite mass_balance_map. apply residual_of_ones.
    intros i. apply (blasi_orbit_total (blasi_1993.constants_at T) dt s i).
  - rewrite (liden_products_orbit _ _ _
               (liden_1988.euler (liden_1988.constants_at T) dt 1)
               (liden_1988.euler (liden_1988.constants_at T) dt 2)
               (liden_1988.euler2 (liden_1988.constants_at T) dt)).
    + do 14 eexists. split; [reflexivity |].
      rewrite !mass_balance_map. repeat split; apply residual_of_ones; intros i.
      * apply (liden_orbit_total_1 T dt i).
      * apply (liden_orbit_total_2 T dt i).
      * destruct (liden_orbit_total_split T dt i) as [H1 H2]. lra.
    + intros. apply liden_returns; [assumption | left; reflexivity].
    + intros. apply liden_returns; [assumption | right; reflexivity].
    + intros. apply liden2_returns; assumption.
Qed.

Lemma mass_is_conserved_witness :
  (exists r, blasi_1993.blasi 1 0 0 0 773 0.01 2 = Ok r /\
             total r = 1 + 0 + 0 + 0) /\
  (exists r, liden_1988.liden 1 0 0 0 773 0.01 2 = Ok r /\
             total r = 1 + 0 + 0 + 0) /\
  (exists r, liden_1988.liden 1 0 0 0 773 0.01 1 = Ok r /\
             total r = 1 + 0 + 0) /\
  (exists w g a c,
     blasi_1993.products (fun w g a c => blasi_1993.blasi w g a c 773 0.01 2) 4
       = Ok (w, g, a, c) /\
     residual (mass_balance w g a c) = zeros 4) /\
  (exists w0 w1 w2 g0 g1 g2 a0 a1 a2 c0 c1 c2 x y,
     liden_1988.products
       (fun w g a c => liden_1988.liden w g a c 773 0.01 1)
       (fun w g a c => liden_1988.liden w g a c 773 0.01 2)
       (fun w g a c x y => liden_1988.liden2 w g a c x y 773 0.01) 4
       = Ok ([w0; w1; w2], [g0; g1; g2], [a0; a1; a2], [c0; c1; c2], x, y) /\
     residual (mass_balance w0 g0 a0 c0) = zeros 4 /\
     residual (mass_balance w1 g1 a1 c1) = zeros 4 /\
     residual (mass_balance w2 a2 x y) = zeros 4).
Proof.
  apply (mass_is_conserved 1 0 0 0 773 0.01 2 4); [lra | right; reflexivity].
Defined.

(** C3 as stated fails for [liden] with [s = 1]: called with gas1 = 1 and
    nothing else, it returns a total of 0 for an input total of 1. *)
Lemma liden_primary_discards_gas1 :
  exists r : R * R * R * R,
    liden_1988.liden 0 1 0 0 773 0.01 1 = Ok r /\
    total r = 0 /\ total r <> 0 + 1 + 0 + 0.
Proof.
  eexists. split; [apply liden_returns; [lra | left; reflexivity] |].
  destruct (liden_euler_total_1 773 0.01 0 1 0 0) as [_ Ht].
  rewrite Ht. split; lra.
Qed.

(** ** Bounds on the exponential *)

Lemma exp_mult_nat (x : R) (n : nat) : exp (INR n * x) = exp x ^ n.
Proof.
  induction n as [| n IH].
  - cbn [INR pow]. rewrite Rmult_0_l. apply exp_0.
  - rewrite S_INR, Rmult_plus_distr_r, Rmult_1_l, exp_plus, IH.
    cbn [pow]. ring.
Qed.

Lemma exp_1_lower : 2.56 <= exp 1.
Proof.
  replace 1 with (INR 8 * (1 / 8)) by (cbn [INR]; lra).
  rewrite exp_mult_nat.
  apply Rle_trans with ((1 + 1 / 8) ^ 8); [lra |].
  apply pow_incr. split; [lra | apply exp_ineq1_le].
Qed.

Lemma exp_nat_bounds (n : nat) : 2.56 ^ n <= exp (INR n) <= 3 ^ n.
Proof.
  rewrite <- (Rmult_1_r (INR n)), exp_mult_nat.
  split; apply pow_incr.
  - split; [lra | apply exp_1_lower].
  - split; [left; apply exp_pos | apply exp_le_3].
Qed.

(** A rate constant whose exponent [E / (Rgas * T)] lies between two
    naturals lies between the matching powers. *)
Lemma rate_bounds (A E Rgas T : R) (n m : nat) :
  0 < A -> INR n <= E / (Rgas * T) <= INR m ->
  A / 3 ^ m <= rate A E Rgas T <= A / 2.56 ^ n.
Proof.
  intros HA [Hn Hm]. unfold rate.
  set (x := E / (Rgas * T)) in *.
  replace (- E / (Rgas * T)) with (- x) by (unfold x, Rdiv; ring).
  rewrite exp_Ropp.
  assert (Hlo : 2.56 ^ n <= exp x).
  { apply Rle_trans with (exp (INR n)); [apply exp_nat_bounds |].
    destruct Hn as [Hn | <-]; [left; apply exp_increasing; exact Hn | lra]. }
  assert (Hhi : exp x <= 3 ^ m).
  { apply Rle_trans with (exp (INR m)); [| apply exp_nat_bounds].
    destruct Hm as [Hm | ->]; [left; apply exp_increasing; exact Hm | lra]. }
  assert (Hp : 0 < 2.56 ^ n) by (apply pow_lt; lra).
  assert (Hx : 0 < exp x) by apply exp_pos.
  unfold Rdiv. split; apply Rmult_le_compat_l; try lra;
    apply Rinv_le_contravar; lra.
Qed.

(** The overall constant [K] of Liden at the temperature of the scripts. *)
Lemma liden_K_773 : 0.1 < rate 1.0e13 183.3 0.008314 773 < 100.
Proof.
  destruct (rate_bounds 1.0e13 183.3 0.008314 773 28 29) as [Hlo Hhi];
    [lra | cbn [INR]; lra |].
  split; lra.
Qed.

(** The wood constants of Blasi at the temperature of the scripts. *)
Lemma blasi_K_773 :
  let k := blasi_1993.constants_at 773 in
  blasi_1993.K1 k + blasi_1993.K2 k + blasi_1993.K3 k < 1.
Proof.
  cbn [blasi_1993.constants_at blasi_1993.K1 blasi_1993.K2 blasi_1993.K3].
  destruct (rate_bounds blasi_1993.A1 blasi_1993.E1 blasi_1993.Rgas 773 13 14)
    as [_ H1].
  { unfold blasi_1993.A1. lra. }
  { unfold blasi_1993.E1, blasi_1993.Rgas. cbn [INR]. lra. }
  destruct (rate_bounds blasi_1993.A2 blasi_1993.E2 blasi_1993.Rgas 773 17 18)
    as [_ H2].
  { unfold blasi_1993.A2. lra. }
  { unfold blasi_1993.E2, blasi_1993.Rgas. cbn [INR]. lra. }
  destruct (rate_bounds blasi_1993.A3 blasi_1993.E3 blasi_1993.Rgas 773 16 17)
    as [_ H3].
  { unfold blasi_1993.A3. lra. }
  { unfold blasi_1993.E3, blasi_1993.Rgas. cbn [INR]. lra. }
  unfold blasi_1993.A1, blasi_1993.A2, blasi_1993.A3 in *. lra.
Qed.

(** ** Wood *)

Lemma decay_le (w K dt : R) :
  0 <= w -> 0 <= K -> 0 <= dt -> w + - K * w * dt <= w.
Proof. intros Hw HK Hdt. assert (0 <= K * dt) by nra. nra. Qed.

Lemma decay_nonneg (w K dt : R) :
  0 <= w -> K * dt <= 1 -> 0 <= w + - K * w * dt.
Proof. intros Hw HK. nra. Qed.

Lemma blasi_euler_wood (k : blasi_1993.rate_constants) (dt : R) (s : Z)
    (x : R * R * R * R) :
  s = 1%Z \/ s = 2%Z ->
  (blasi_1993.euler k dt s x).1.1.1 =
    x.1.1.1 + - (blasi_1993.K1 k + blasi_1993.K2 k + blasi_1993.K3 k)
              * x.1.1.1 * dt.
Proof. destruct x as [[[w g] a] c]. intros [-> | ->]; reflexivity. Qed.

Lemma liden_euler_wood (k : liden_1988.rate_constants) (dt : R) (s : Z)
    (x : R * R * R * R) :
  s = 1%Z \/ s = 2%Z ->
  (liden_1988.euler k dt s x).1.1.1 =
    x.1.1.1 + - liden_1988.K k * x.1.1.1 * dt.
Proof. destruct x as [[[w g] a] c]. intros [-> | ->]; reflexivity. Qed.

Lemma liden_euler2_wood (k : liden_1988.rate_constants) (dt : R)
    (x : R * R * R * R * R * R) :
  (liden_1988.euler2 k dt x).1.1.1.1.1 =
    x.1.1.1.1.1 + - liden_1988.K k * x.1.1.1.1.1 * dt.
Proof. destruct x as [[[[[w g] a] c] u] v]. reflexivity. Qed.

Lemma kn_liden_euler_wood (k : kn_liden_1988.rate_constants) (dt : R) (s : Z)
    (x : R * R) :
  s = 1%Z \/ s = 2%Z ->
  (kn_liden_1988.euler k dt s x).1 = x.1 + - kn_liden_1988.K k * x.1 * dt.
Proof. destruct x as [w a]. intros [-> | ->]; reflexivity. Qed.

Section Decay.

Context {State : Type}.
Variables (f : State -> State) (wood : State -> R) (K dt : R) (x0 : State).
Hypothesis wood_f : forall x, wood (f x) = wood x + - K * wood x * dt.
Hypothesis K_nonneg : 0 <= K.
Hypothesis dt_nonneg : 0 <= dt.
Hypothesis stable : K * dt <= 1.
Hypothesis start_nonneg : 0 <= wood x0.

Lemma orbit_wood_nonneg (i : nat) : 0 <= wood (orbit f x0 i).
Proof.
  induction i as [| i IH]; cbn [orbit]; [exact start_nonneg |].
  rewrite wood_f. apply decay_nonneg; assumption.
Qed.

Lemma orbit_wood_decays (i : nat) :
  wood (orbit f x0 (S i)) <= wood (orbit f x0 i).
Proof.
  cbn [orbit]. rewrite wood_f.
  apply decay_le; [apply orbit_wood_nonneg | assumption | assumption].
Qed.

End Decay.

(** C6, as the code has it: a step called with wood >= 0 and dt >= 0, at a
    temperature other than 0, returns no more wood than it was given, in
    every variant.  In the loops of the scripts the wood series is
    non-increasing whenever, besides, the overall wood rate constant times
    dt is at most 1, which keeps every wood value non-negative. *)
Theorem wood_decays (wood gas tar char x y T dt : R) (s : Z) (nt : nat) :
  T <> 0 -> 0 <= wood -> 0 <= dt -> s = 1%Z \/ s = 2%Z ->
  (exists r, blasi_1993.blasi wood gas tar char T dt s = Ok r /\
             r.1.1.1 <= wood) /\
  (exists r, liden_1988.liden wood gas tar char T dt s = Ok r /\
             r.1.1.1 <= wood) /\
  (exists r, liden_1988.liden2 wood gas tar char x y T dt = Ok r /\
             r.1.1.1.1.1 <= wood) /\
  (exists r, kn_liden_1988.liden wood tar T dt s = Ok r /\ r.1 <= wood) /\
  (let k := blasi_1993.constants_at T in
   (blasi_1993.K1 k + blasi_1993.K2 k + blasi_1993.K3 k) * dt <= 1 ->
   exists w g a c,
     blasi_1993.products (fun w g a c => blasi_1993.blasi w g a c T dt s) nt
       = Ok (w, g, a, c) /\
     non_increasing w) /\
  (liden_1988.K (liden_1988.constants_at T) * dt <= 1 ->
   exists w0 w1 w2 g a c x y,
     liden_1988.products
       (fun w g a c => liden_1988.liden w g a c T dt 1)
       (fun w g a c => liden_1988.liden w g a c T dt 2)
       (fun w g a c x y => liden_1988.liden2 w g a c x y T dt) nt
       = Ok ([w0; w1; w2], g, a, c, x, y) /\
     non_increasing w0 /\ non_increasing w1 /\ non_increasing w2) /\
  (kn_liden_1988.K (kn_liden_1988.constants_at T) * dt <= 1 ->
   exists w a,
     kn_liden_1988.products (fun w a => kn_liden_1988.liden w a T dt s) nt
       = Ok (w, a) /\
     non_increasing w).
Proof.
  intros HT Hw Hdt Hs.
  destruct (blasi_constants_pos T) as (B1 & B2 & B3 & _).
  destruct (liden_constants_pos T) as (L & _).
  destruct (kn_liden_constants_pos T) as (N & _).
  cbv zeta in B1, B2, B3, L, N.
  repeat apply conj.
  - rewrite (blasi_returns _ _ _ _ _ _ _ HT Hs). eexists.
    split; [reflexivity |]. rewrite (blasi_euler_wood _ _ _ _ Hs).
    apply decay_le; cbn [fst]; lra.
  - rewrite (liden_returns _ _ _ _ _ _ _ HT Hs). eexists.
    split; [reflexivity |]. rewrite (liden_euler_wood _ _ _ _ Hs).
    apply decay_le; cbn [fst]; lra.
  - rewrite (liden2_returns _ _ _ _ _ _ _ _ HT). eexists.
    split; [reflexivity |]. rewrite liden_euler2_wood.
    apply decay_le; cbn [fst]; lra.
  - rewrite (kn_liden_returns _ _ _ _ _ HT Hs). eexists.
    split; [reflexivity |]. rewrite (kn_liden_euler_wood _ _ _ _ Hs).
    apply decay_le; cbn [fst]; lra.
  - intros k Hk.
    rewrite (blasi_products_orbit _ (blasi_1993.euler k dt s))
      by (intros; apply blasi_returns; assumption).
    do 4 eexists. split; [reflexivity |].
    apply non_increasing_map. intros i.
    apply (orbit_wood_decays (blasi_1993.euler k dt s) (fun x => x.1.1.1)
             (blasi_1993.K1 k + blasi_1993.K2 k + blasi_1993.K3 k) dt).
    + intros x'. apply blasi_euler_wood. exact Hs.
    + subst k. lra.
    + exact Hdt.
    + exact Hk.
    + cbn. lra.
  - intros Hk.
    rewrite (liden_products_orbit _ _ _
               (liden_1988.euler (liden_1988.constants_at T) dt 1)
               (liden_1988.euler (liden_1988.constants_at T) dt 2)
               (liden_1988.euler2 (liden_1988.constants_at T) dt)).
    + do 8 eexists. split; [reflexivity |].
      repeat split; apply non_increasing_map; intros i.
      * apply (orbit_wood_decays _ (fun x => x.1.1.1)
                 (liden_1988.K (liden_1988.constants_at T)) dt);
          [ intros x'; apply liden_euler_wood; left; reflexivity
          | lra | exact Hdt | exact Hk | cbn; lra ].
      * apply (orbit_wood_decays _ (fun x => x.1.1.1)
                 (liden_1988.K (liden_1988.constants_at T)) dt);
          [ intros x'; apply liden_euler_wood; right; reflexivity
          | lra | exact Hdt | exact Hk | cbn; lra ].
      * apply (orbit_wood_decays _ (fun x => x.1.1.1.1.1)
                 (liden_1988.K (liden_1988.constants_at T)) dt);
          [ intros x'; apply liden_euler2_wood
          | lra | exact Hdt | exact Hk | cbn; lra ].
    + intros. apply liden_returns; [assumption | left; reflexivity].
    + intros. apply liden_returns; [assumption | right; reflexivity].
    + intros. apply liden2_returns; assumption.
  - intros Hk.
    rewrite (kn_liden_products_orbit _
               (kn_liden_1988.euler (kn_liden_1988.constants_at T) dt s))
      by (intros; apply kn_liden_returns; assumption).
    do 2 eexists. split; [reflexivity |].
    apply non_increasing_map. intros i.
    apply (orbit_wood_decays _ (fun x => x.1)
             (kn_liden_1988.K (kn_liden_1988.constants_at T)) dt);
      [ intros x'; apply kn_liden_euler_wood; exact Hs
      | lra | exact Hdt | exact Hk | cbn; lra ].
Qed.

Lemma wood_decays_witness :
  (exists r, blasi_1993.blasi 1 0 0 0 773 0.01 1 = Ok r /\ r.1.1.1 <= 1) /\
  (exists r, liden_1988.liden 1 0 0 0 773 0.01 1 = Ok r /\ r.1.1.1 <= 1) /\
  (exists r, liden_1988.liden2 1 0 0 0 0 0 773 0.01 = Ok r /\
             r.1.1.1.1.1 <= 1) /\
  (exists r, kn_liden_1988.liden 1 0 773 0.01 1 = Ok r /\ r.1 <= 1) /\
  (exists w g a c,
     blasi_1993.products
       (fun w g a c => blasi_1993.blasi w g a c 773 0.01 1) 4
       = Ok (w, g, a, c) /\
     non_increasing w) /\
  (exists w0 w1 w2 g a c x y,
     liden_1988.products
       (fun w g a c => liden_1988.liden w g a c 773 0.01 1)
       (fun w g a c => liden_1988.liden w g a c 773 0.01 2)
       (fun w g a c x y => liden_1988.liden2 w g a c x y 773 0.01) 4
       = Ok ([w0; w1; w2], g, a, c, x, y) /\
     non_increasing w0 /\ non_increasing w1 /\ non_increasing w2) /\
  (exists w a,
     kn_liden_1988.products
       (fun w a => kn_liden_1988.liden w a 773 0.01 1) 4
       = Ok (w, a) /\
     non_increasing w).
Proof.
  destruct (wood_decays 1 0 0 0 0 0 773 0.01 1 4)
    as (H1 & H2 & H3 & H4 & H5 & H6 & H7);
    [lra | lra | lra | left; reflexivity |].
  pose proof blasi_K_773 as HB. pose proof liden_K_773 as HL.
  cbv zeta in HB.
  repeat apply conj; [exact H1 | exact H2 | exact H3 | exact H4 | | |].
  - apply H5. lra.
  - apply H6. cbn [liden_1988.constants_at liden_1988.K].
    unfold liden_1988.A, liden_1988.E, liden_1988.Rgas. lra.
  - apply H7. cbn [kn_liden_1988.constants_at kn_liden_1988.K].
    unfold kn_liden_1988.A, kn_liden_1988.E, kn_liden_1988.Rgas. lra.
Defined.

(** C6 as stated fails in a run of [kn_liden_1988.py] with the step
    [dt = 10] at the temperature of the script: the first step takes wood
    from 1 below zero, and the second returns more wood than it was
    given. *)
Lemma wood_may_increase :
  exists (wood tar : list R) (w1 a1 w2 a2 : R),
    kn_liden_1988.products
      (fun w a => kn_liden_1988.liden w a 773 10 1) 3 = Ok (wood, tar) /\
    wood !! 1%nat = Some w1 /\ tar !! 1%nat = Some a1 /\
    kn_liden_1988.liden w1 a1 773 10 1 = Ok (w2, a2) /\
    wood !! 2%nat = Some w2 /\
    w1 < 0 /\ w1 < w2.
Proof.
  set (f := kn_liden_1988.euler (kn_liden_1988.constants_at 773) 10 1).
  rewrite (kn_liden_products_orbit _ f)
    by (intros; apply kn_liden_returns; [lra | left; reflexivity]).
  set (x1 := orbit f kn_liden_1988.initial 1).
  exists (map (fun i => (orbit f kn_liden_1988.initial i).1) (seq 0 3)),
    (map (fun i => (orbit f kn_liden_1988.initial i).2) (seq 0 3)),
    x1.1, x1.2, (f x1).1, (f x1).2.
  split; [reflexivity |]. split; [reflexivity |]. split; [reflexivity |].
  split.
  { rewrite kn_liden_returns by (lra || (left; reflexivity)).
    fold f. rewrite <- !surjective_pairing. reflexivity. }
  split; [reflexivity |].
  pose proof liden_K_773 as [HK _].
  subst x1 f.
  cbn [orbit kn_liden_1988.euler kn_liden_1988.update kn_liden_1988.initial
       kn_liden_1988.constants_at kn_liden_1988.K kn_liden_1988.K2
       Z.eqb Pos.eqb fst snd].
  cbv zeta. cbn [fst snd].
  unfold kn_liden_1988.A, kn_liden_1988.E, kn_liden_1988.Rgas.
  split; nra.
Qed.

(** ** Rate constants forced to zero *)

Lemma orbit_fixed {State : Type} (f : State -> State) (x : State)
    (i : nat) :
  f x = x -> orbit f x i = x.
Proof.
  intros Hf. induction i as [| i IH]; cbn [orbit]; [reflexivity |].
  rewrite IH. exact Hf.
Qed.

Lemma blasi_zero_update (wood gas tar char dt : R) (s : Z) :
  s = 1%Z \/ s = 2%Z ->
  blasi_1993.update blasi_1993.zero_rates wood gas tar char dt s
    = Ok (wood, gas, tar, char).
Proof.
  intros [-> | ->];
    cbn [blasi_1993.update Z.eqb Pos.eqb blasi_1993.zero_rates
         blasi_1993.K1 blasi_1993.K2 blasi_1993.K3 blasi_1993.K4
         blasi_1993.K5];
    cbv zeta; repeat f_equal; ring.
Qed.

Lemma liden_zero_update_2 (wood gas1 tar gaschar dt : R) :
  liden_1988.update liden_1988.zero_rates wood gas1 tar gaschar dt 2
    = Ok (wood, gas1, tar, gaschar).
Proof.
  cbn [liden_1988.update Z.eqb Pos.eqb liden_1988.zero_rates
       liden_1988.K liden_1988.K1 liden_1988.K2 liden_1988.K3].
  cbv zeta. repeat f_equal; ring.
Qed.

Lemma liden_zero_update_1 (wood gas1 tar gaschar dt : R) :
  liden_1988.update liden_1988.zero_rates wood gas1 tar gaschar dt 1
    = Ok (wood, 0, tar, gaschar).
Proof.
  cbn [liden_1988.update Z.eqb Pos.eqb liden_1988.zero_rates
       liden_1988.K liden_1988.K1 liden_1988.K2 liden_1988.K3].
  cbv zeta. repeat f_equal; ring.
Qed.

Lemma liden_zero_update2 (wood gas1 tar gaschar gas char dt : R) :
  liden_1988.update2 liden_1988.zero_rates wood gas1 tar gaschar gas char dt
    = (wood, gas1, tar, gaschar,
       gas1 + liden_1988.g3 * gaschar, liden_1988.c3 * gaschar).
Proof.
  unfold liden_1988.update2.
  cbn [liden_1988.zero_rates
       liden_1988.K liden_1988.K1 liden_1988.K2 liden_1988.K3].
  cbv zeta. repeat f_equal; ring.
Qed.

(** C7, as the code has it: with every rate constant 0, [blasi] under
    either selector and [liden] with [s = 2] return the state they were
    given; [liden] with [s = 1] returns it with [gas1] set to 0; [liden2]
    returns wood, gas1, tar and gaschar as given and recomputes gas and char
    from them.  In the loops of the scripts, which start from wood = 1 and 0
    elsewhere, every series then stays at its first value. *)
Theorem zero_rates_keep_state (wood gas tar char x y dt : R) (s : Z)
    (nt : nat) :
  s = 1%Z \/ s = 2%Z ->
  blasi_1993.update blasi_1993.zero_rates wood gas tar char dt s
    = Ok (wood, gas, tar, char) /\
  liden_1988.update liden_1988.zero_rates wood gas tar char dt 2
    = Ok (wood, gas, tar, char) /\
  liden_1988.update liden_1988.zero_rates wood gas tar char dt 1
    = Ok (wood, 0, tar, char) /\
  liden_1988.update2 liden_1988.zero_rates wood gas tar char x y dt
    = (wood, gas, tar, char,
       gas + liden_1988.g3 * char, liden_1988.c3 * char) /\
  blasi_1993.products
    (fun w g a c => blasi_1993.update blasi_1993.zero_rates w g a c dt s) nt
    = Ok (ones nt, zeros nt, zeros nt, zeros nt) /\
  liden_1988.products
    (fun w g a c => liden_1988.update liden_1988.zero_rates w g a c dt 1)
    (fun w g a c => liden_1988.update liden_1988.zero_rates w g a c dt 2)
    (fun w g a c x y =>
       Ok (liden_1988.update2 liden_1988.zero_rates w g a c x y dt)) nt
    = Ok (ones2 3 nt, zeros2 3 nt, zeros2 3 nt, zeros2 3 nt,
          zeros nt, zeros nt).
Proof.
  intros Hs. repeat apply conj.
  - apply blasi_zero_update. exact Hs.
  - apply liden_zero_update_2.
  - apply liden_zero_update_1.
  - apply liden_zero_update2.
  - rewrite (blasi_products_orbit _
               (blasi_1993.euler blasi_1993.zero_rates dt s)).
    + assert (Hfix : forall i,
                orbit (blasi_1993.euler blasi_1993.zero_rates dt s)
                  blasi_1993.initial i = blasi_1993.initial).
      { intros i. apply orbit_fixed. unfold blasi_1993.euler,
          blasi_1993.initial. rewrite (blasi_zero_update _ _ _ _ _ _ Hs).
        reflexivity. }
      set (f := blasi_1993.euler blasi_1993.zero_rates dt s) in *.
      cbv zeta.
      rewrite
        (map_const_seq 1 (fun i => (orbit f blasi_1993.initial i).1.1.1)),
        (map_const_seq 0 (fun i => (orbit f blasi_1993.initial i).1.1.2)),
        (map_const_seq 0 (fun i => (orbit f blasi_1993.initial i).1.2)),
        (map_const_seq 0 (fun i => (orbit f blasi_1993.initial i).2))
        by (intros i; rewrite Hfix; reflexivity).
      reflexivity.
    + intros w g a c. unfold blasi_1993.euler.
      rewrite (blasi_zero_update _ _ _ _ _ _ Hs). reflexivity.
  - rewrite (liden_products_orbit _ _ _
               (liden_1988.euler liden_1988.zero_rates dt 1)
               (liden_1988.euler liden_1988.zero_rates dt 2)
               (liden_1988.euler2 liden_1988.zero_rates dt)).
    + assert (H0 : forall i,
                orbit (liden_1988.euler liden_1988.zero_rates dt 1)
                  liden_1988.initial i = liden_1988.initial).
      { intros i. apply orbit_fixed. unfold liden_1988.euler,
          liden_1988.initial. rewrite liden_zero_update_1. reflexivity. }
      assert (H1 : forall i,
                orbit (liden_1988.euler liden_1988.zero_rates dt 2)
                  liden_1988.initial i = liden_1988.initial).
      { intros i. apply orbit_fixed. unfold liden_1988.euler,
          liden_1988.initial. rewrite liden_zero_update_2. reflexivity. }
      assert (H2 : forall i,
                orbit (liden_1988.euler2 liden_1988.zero_rates dt)
                  liden_1988.initial2 i = liden_1988.initial2).
      { intros i. apply orbit_fixed. unfold liden_1988.euler2,
          liden_1988.initial2. rewrite liden_zero_update2.
        repeat f_equal; ring. }
      cbv zeta. unfold ones2, zeros2, ones, zeros. cbn [replicate].
      repeat f_equal; apply map_const_seq; intros i;
        rewrite ?H0, ?H1, ?H2; reflexivity.
    + intros w g a c. unfold liden_1988.euler.
      rewrite liden_zero_update_1. reflexivity.
    + intros w g a c. unfold liden_1988.euler.
      rewrite liden_zero_update_2. reflexivity.
    + intros. reflexivity.
Qed.

Lemma zero_rates_keep_state_witness :
  blasi_1993.update blasi_1993.zero_rates 1 0 0 0 0.01 1
    = Ok (1, 0, 0, 0) /\
  liden_1988.update liden_1988.zero_rates 1 0 0 0 0.01 2
    = Ok (1, 0, 0, 0) /\
  liden_1988.update liden_1988.zero_rates 1 0 0 0 0.01 1
    = Ok (1, 0, 0, 0) /\
  liden_1988.update2 liden_1988.zero_rates 1 0 0 0 0 0 0.01
    = (1, 0, 0, 0,
       0 + liden_1988.g3 * 0, liden_1988.c3 * 0) /\
  blasi_1993.products
    (fun w g a c => blasi_1993.update blasi_1993.zero_rates w g a c 0.01 1) 4
    = Ok (ones 4, zeros 4, zeros 4, zeros 4) /\
  liden_1988.products
    (fun w g a c => liden_1988.update liden_1988.zero_rates w g a c 0.01 1)
    (fun w g a c => liden_1988.update liden_1988.zero_rates w g a c 0.01 2)
    (fun w g a c x y =>
       Ok (liden_1988.update2 liden_1988.zero_rates w g a c x y 0.01)) 4
    = Ok (ones2 3 4, zeros2 3 4, zeros2 3 4, zeros2 3 4,
          zeros 4, zeros 4).
Proof.
  apply (zero_rates_keep_state 1 0 0 0 0 0 0.01 1 4). left. reflexivity.
Defined.

(** C7 as stated fails for [liden] with [s = 1] and for [liden2]: with
    every rate constant 0, a [gas1] of 1 comes back as 0, and a [gas] and a
    [char] of 1 come back as 0. *)
Lemma zero_rates_change_state :
  liden_1988.update liden_1988.zero_rates 1 1 0 0 0.01 1 <> Ok (1, 1, 0, 0) /\
  liden_1988.update2 liden_1988.zero_rates 1 0 0 0 1 1 0.01
    <> (1, 0, 0, 0, 1, 1).
Proof.
  rewrite liden_zero_update_1, liden_zero_update2. split.
  - intros H. injection H as H. lra.
  - intros H. injection H as _ H. lra.
Qed.

(** ** The time vector *)

Lemma py_int_2500 : py_int (25 / 0.01) = 2500%Z.
Proof.
  unfold py_int. destruct (Rle_dec 0 (25 / 0.01)) as [_ | H]; [| lra].
  apply Zfloor_eq. lra.
Qed.

(** The three scripts build one and the same time vector. *)
Lemma time_vector_value :
  let tv := map (fun i : nat => INR i * ((25 - 0) / (2500 - 1)) + 0)
              (seq 0 2500) in
  blasi_1993.t = Ok tv /\ liden_1988.t = Ok tv /\ kn_liden_1988.t = Ok tv.
Proof.
  assert (E : (num ← py_div 25 0.01; linspace 0 25 num) =
              Ok (map (fun i : nat => INR i * ((25 - 0) / (2500 - 1)) + 0)
                    (seq 0 2500))).
  { rewrite py_div_ok by lra. cbn [mbind result_bind]. unfold linspace.
    rewrite py_int_2500.
    destruct (decide (2500 < 0)%Z) as [H | _]; [lia |]. reflexivity. }
  repeat split; exact E.
Qed.

(** C9 on the code: with dt = 0.01 and tmax = 25 the time vector has 2500
    cells, but cell [i] holds [i * 25 / 2499], not [i * dt]: the 2500 samples
    of [np.linspace] include both ends, so the last cell is [tmax] = 25
    where [i * dt] is 24.99, and no cell after the first is [i * dt]. *)
Theorem time_vector_spacing :
  exists tv : list R,
    blasi_1993.t = Ok tv /\ liden_1988.t = Ok tv /\
    kn_liden_1988.t = Ok tv /\
    length tv = 2500%nat /\
    (forall i : nat, (i < 2500)%nat -> tv !! i = Some (INR i * 25 / 2499)) /\
    (forall (i : nat) (x : R),
       (0 < i)%nat -> tv !! i = Some x -> x <> INR i * blasi_1993.dt) /\
    tv !! 2499%nat = Some blasi_1993.tmax.
Proof.
  destruct time_vector_value as (E1 & E2 & E3).
  eexists. split; [exact E1 |]. split; [exact E2 |]. split; [exact E3 |].
  assert (Hcell : forall i : nat, (i < 2500)%nat ->
            map (fun i : nat => INR i * ((25 - 0) / (2500 - 1)) + 0)
              (seq 0 2500) !! i = Some (INR i * 25 / 2499)).
  { intros i Hi.
    change (map ?f ?l) with (f <$> l). rewrite list_lookup_fmap.
    assert (seq 0 2500 !! i = Some i) as -> by (apply lookup_seq; lia).
    cbn [fmap option_fmap option_map]. f_equal. lra. }
  split; [rewrite length_map, length_seq; reflexivity |].
  split; [exact Hcell |]. split.
  - intros i x Hi Hx.
    destruct (decide (i < 2500)%nat) as [Hlt | Hge].
    + rewrite (Hcell i Hlt) in Hx. injection Hx as <-.
      assert (0 < INR i) by (apply lt_0_INR; exact Hi).
      unfold blasi_1993.dt. lra.
    + rewrite lookup_ge_None_2 in Hx; [discriminate |].
      rewrite length_map, length_seq. lia.
  - rewrite (Hcell 2499%nat) by lia. f_equal.
    rewrite INR_IZR_INZ. unfold blasi_1993.tmax.
    change (Z.of_nat 2499) with 2499%Z. lra.
Qed.

(** ** The scripts as configured *)

(** [blasi_1993.py] runs to its end under either selector: four series of
    2500 cells each, with a zero mass balance residual and a wood series
    that never increases. *)
Lemma blasi_main_runs (s : Z) :
  s = 1%Z \/ s = 2%Z ->
  exists w g a c : list R,
    blasi_1993.main s = Ok (w, g, a, c) /\
    length w = 2500%nat /\
    residual (mass_balance w g a c) = zeros 2500 /\
    non_increasing w.
Proof.
  intros Hs. destruct time_vector_value as (E & _ & _).
  unfold blasi_1993.main. rewrite E. cbn [mbind result_bind].
  rewrite length_map, length_seq.
  set (k := blasi_1993.constants_at blasi_1993.T).
  rewrite (blasi_products_orbit _ (blasi_1993.euler k blasi_1993.dt s))
    by (intros; apply blasi_returns; [unfold blasi_1993.T; lra | exact Hs]).
  do 4 eexists. split; [reflexivity |].
  split; [rewrite length_map, length_seq; reflexivity |]. split.
  - rewrite mass_balance_map. apply residual_of_ones. intros i.
    apply (blasi_orbit_total k blasi_1993.dt s i).
  - apply non_increasing_map. intros i.
    apply (orbit_wood_decays (blasi_1993.euler k blasi_1993.dt s)
             (fun x => x.1.1.1)
             (blasi_1993.K1 k + blasi_1993.K2 k + blasi_1993.K3 k)
             blasi_1993.dt);
      pose proof blasi_K_773 as HK;
      destruct (blasi_constants_pos blasi_1993.T) as (B1 & B2 & B3 & _);
      cbv zeta in HK, B1, B2, B3; fold k in B1, B2, B3;
      unfold blasi_1993.dt; unfold blasi_1993.T in k.
    + intros x'. apply blasi_euler_wood. exact Hs.
    + lra.
    + lra.
    + fold k in HK. lra.
    + cbn. lra.
Qed.

(** [kn_liden_1988.py] runs to its end: two series of 2500 cells, the wood
    one never increasing. *)
Lemma kn_liden_main_runs :
  exists w a : list R,
    kn_liden_1988.main = Ok (w, a) /\
    length w = 2500%nat /\ length a = 2500%nat /\ non_increasing w.
Proof.
  destruct time_vector_value as (_ & _ & E).
  unfold kn_liden_1988.main. rewrite E. cbn [mbind result_bind].
  rewrite length_map, length_seq.
  set (k := kn_liden_1988.constants_at kn_liden_1988.T).
  rewrite (kn_liden_products_orbit _
             (kn_liden_1988.euler k kn_liden_1988.dt 1))
    by (intros; apply kn_liden_returns;
        [unfold kn_liden_1988.T; lra | left; reflexivity]).
  do 2 eexists. split; [reflexivity |].
  split; [rewrite length_map, length_seq; reflexivity |].
  split; [rewrite length_map, length_seq; reflexivity |].
  apply non_increasing_map. intros i.
  pose proof liden_K_773 as HK.
  apply (orbit_wood_decays (kn_liden_1988.euler k kn_liden_1988.dt 1)
           (fun x => x.1) (kn_liden_1988.K k) kn_liden_1988.dt);
    subst k; cbn [kn_liden_1988.constants_at kn_liden_1988.K];
    unfold kn_liden_1988.dt, kn_liden_1988.T, kn_liden_1988.A,
      kn_liden_1988.E, kn_liden_1988.Rgas.
  - intros x'. apply kn_liden_euler_wood. left. reflexivity.
  - lra.
  - lra.
  - lra.
  - cbn. lra.
Qed.

(** [liden_1988.py] runs to its end, and the three mass balances it prints
    are 1 in every cell. *)
Lemma liden_main_runs :
  exists w0 w1 w2 g0 g1 g2 a0 a1 a2 c0 c1 c2 x y : list R,
    liden_1988.main
      = Ok ([w0; w1; w2], [g0; g1; g2], [a0; a1; a2], [c0; c1; c2], x, y) /\
    mass_balance w0 g0 a0 c0 = ones 2500 /\
    mass_balance w1 g1 a1 c1 = ones 2500 /\
    mass_balance w2 a2 x y = ones 2500 /\
    non_increasing w0 /\ non_increasing w1 /\ non_increasing w2.
Proof.
  destruct time_vector_value as (_ & E & _).
  unfold liden_1988.main. rewrite E. cbn [mbind result_bind].
  rewrite length_map, length_seq.
  set (k := liden_1988.constants_at liden_1988.T).
  assert (HT : liden_1988.T <> 0) by (unfold liden_1988.T; lra).
  rewrite (liden_products_orbit _ _ _
             (liden_1988.euler k liden_1988.dt 1)
             (liden_1988.euler k liden_1988.dt 2)
             (liden_1988.euler2 k liden_1988.dt)).
  - do 14 eexists. split; [reflexivity |].
    rewrite !mass_balance_map. unfold ones.
    pose proof liden_K_773 as HK.
    assert (HKdt : 0 <= liden_1988.K k /\
                   liden_1988.K k * liden_1988.dt <= 1).
    { subst k. cbn [liden_1988.constants_at liden_1988.K].
      unfold liden_1988.dt, liden_1988.T, liden_1988.A, liden_1988.E,
        liden_1988.Rgas. lra. }
    destruct HKdt as [HK0 HK1].
    assert (Hdt : 0 <= liden_1988.dt) by (unfold liden_1988.dt; lra).
    repeat apply conj.
    + apply map_const_seq. intros i.
      apply (liden_orbit_total_1 liden_1988.T liden_1988.dt i).
    + apply map_const_seq. intros i.
      apply (liden_orbit_total_2 liden_1988.T liden_1988.dt i).
    + apply map_const_seq. intros i.
      destruct (liden_orbit_total_split liden_1988.T liden_1988.dt i)
        as [H1 H2]. fold k in H1, H2. lra.
    + apply non_increasing_map. intros i.
      apply (orbit_wood_decays _ (fun x => x.1.1.1) (liden_1988.K k)
               liden_1988.dt); try assumption; [| cbn; lra].
      intros x'. apply liden_euler_wood. left. reflexivity.
    + apply non_increasing_map. intros i.
      apply (orbit_wood_decays _ (fun x => x.1.1.1) (liden_1988.K k)
               liden_1988.dt); try assumption; [| cbn; lra].
      intros x'. apply liden_euler_wood. right. reflexivity.
    + apply non_increasing_map. intros i.
      apply (orbit_wood_decays _ (fun x => x.1.1.1.1.1) (liden_1988.K k)
               liden_1988.dt); try assumption; [| cbn; lra].
      intros x'. apply liden_euler2_wood.
  - intros. apply liden_returns; [exact HT | left; reflexivity].
  - intros. apply liden_returns; [exact HT | right; reflexivity].
  - intros. apply liden2_returns. exact HT.
Qed.

(** * Further properties of the code *)

Lemma lookup_map_seq (g : nat -> R) (n i : nat) (x : R) :
  map g (seq 0 n) !! i = Some x -> x = g i /\ (i < n)%nat.
Proof.
  change (map g (seq 0 n)) with (g <$> seq 0 n). rewrite list_lookup_fmap.
  destruct (seq 0 n !! i) as [j |] eqn:E; [| discriminate].
  apply lookup_seq in E as [-> Hi]. cbn. intros H. injection H as <-.
  split; [reflexivity | exact Hi].
Qed.

Lemma lookup_map_seq_lt (g : nat -> R) (n i : nat) :
  (i < n)%nat -> map g (seq 0 n) !! i = Some (g i).
Proof.
  intros Hi. change (map g (seq 0 n)) with (g <$> seq 0 n).
  rewrite list_lookup_fmap.
  assert (seq 0 n !! i = Some i) as -> by (apply lookup_seq; lia).
  reflexivity.
Qed.

(** ** When a call can return *)

(** X1: at temperature 0 [blasi], both [liden] and [liden2] raise
    ZeroDivisionError whatever the selector is, because the rate constants
    are evaluated before the selector is looked at; and a call that returns
    had a temperature other than 0 and, where there is a selector, the
    selector 1 or 2. *)
Theorem calls_that_return (wood gas tar char x y T dt : R) (s : Z) :
  (T = 0 ->
   blasi_1993.blasi wood gas tar char T dt s = Raise ZeroDivisionError /\
   liden_1988.liden wood gas tar char T dt s = Raise ZeroDivisionError /\
   kn_liden_1988.liden wood tar T dt s = Raise ZeroDivisionError /\
   liden_1988.liden2 wood gas tar char x y T dt = Raise ZeroDivisionError) /\
  ((exists r, blasi_1993.blasi wood gas tar char T dt s = Ok r)
     -> T <> 0 /\ (s = 1%Z \/ s = 2%Z)) /\
  ((exists r, liden_1988.liden wood gas tar char T dt s = Ok r)
     -> T <> 0 /\ (s = 1%Z \/ s = 2%Z)) /\
  ((exists r, kn_liden_1988.liden wood tar T dt s = Ok r)
     -> T <> 0 /\ (s = 1%Z \/ s = 2%Z)) /\
  ((exists r, liden_1988.liden2 wood gas tar char x y T dt = Ok r)
     -> T <> 0).
Proof.
  assert (Hsel : s = 1%Z \/ s = 2%Z \/ (s <> 1%Z /\ s <> 2%Z)) by lia.
  repeat apply conj.
  - intros ->. unfold blasi_1993.blasi, liden_1988.liden,
      kn_liden_1988.liden, liden_1988.liden2.
    rewrite blasi_constants_zero, liden_constants_zero,
      kn_liden_constants_zero. repeat split.
  - intros [r Hr]. destruct (Req_dec_T T 0) as [-> | HT].
    + unfold blasi_1993.blasi in Hr. rewrite blasi_constants_zero in Hr.
      discriminate Hr.
    + split; [exact HT |]. destruct Hsel as [H | [H | [H1 H2]]]; auto.
      rewrite (blasi_other_selector _ _ _ _ _ _ _ H1 H2) in Hr.
      discriminate Hr.
  - intros [r Hr]. destruct (Req_dec_T T 0) as [-> | HT].
    + unfold liden_1988.liden in Hr. rewrite liden_constants_zero in Hr.
      discriminate Hr.
    + split; [exact HT |]. destruct Hsel as [H | [H | [H1 H2]]]; auto.
      rewrite (liden_other_selector _ _ _ _ _ _ _ H1 H2) in Hr.
      discriminate Hr.
  - intros [r Hr]. destruct (Req_dec_T T 0) as [-> | HT].
    + unfold kn_liden_1988.liden in Hr.
      rewrite kn_liden_constants_zero in Hr. discriminate Hr.
    + split; [exact HT |]. destruct Hsel as [H | [H | [H1 H2]]]; auto.
      rewrite (kn_liden_other_selector _ _ _ _ _ H1 H2) in Hr.
      discriminate Hr.
  - intros [r Hr] ->. unfold liden_1988.liden2 in Hr.
    rewrite liden_constants_zero in Hr. discriminate Hr.
Qed.

(** ** The rate constant as a function of temperature *)

Lemma exponent_increases (E Rgas T1 T2 : R) :
  0 < E -> 0 < Rgas -> 0 < T1 < T2 ->
  - E / (Rgas * T1) < - E / (Rgas * T2).
Proof.
  intros HE HR [H1 H2].
  assert (P1 : 0 < Rgas * T1) by (apply Rmult_lt_0_compat; lra).
  assert (P2 : Rgas * T1 < Rgas * T2) by (apply Rmult_lt_compat_l; lra).
  assert (Hinv : / (Rgas * T2) < / (Rgas * T1)).
  { apply Rinv_lt_contravar; [| exact P2].
    apply Rmult_lt_0_compat; lra. }
  unfold Rdiv. nra.
Qed.

(** X2: a rate constant does not fall when the temperature rises: for
    A > 0, E > 0, a positive gas constant and 0 < T1 <= T2, whenever the
    evaluations at T1 and at T2 return, the constant at T1 is at most the
    constant at T2. *)
Theorem rate_does_not_fall_with_temperature (A E Rgas T1 T2 k1 k2 : R) :
  0 < A -> 0 < E -> 0 < Rgas -> 0 < T1 <= T2 ->
  arrhenius A E Rgas T1 = Ok k1 -> arrhenius A E Rgas T2 = Ok k2 ->
  k1 <= k2.
Proof.
  intros HA HE HR [HT1 HT12] E1 E2.
  rewrite arrhenius_ok in E1 by nra. rewrite arrhenius_ok in E2 by nra.
  injection E1 as <-. injection E2 as <-.
  destruct HT12 as [Hlt | <-]; [| lra].
  unfold rate. left. apply Rmult_lt_compat_l; [exact HA |].
  apply exp_increasing. apply exponent_increases; [assumption .. | lra].
Qed.

Lemma rate_does_not_fall_with_temperature_witness :
  rate 4.28e6 108 0.008314 773 <= rate 4.28e6 108 0.008314 873.
Proof.
  apply (rate_does_not_fall_with_temperature 4.28e6 108 0.008314 773 873);
    try lra; apply arrhenius_ok; lra.
Defined.

(** ** What the loops compute *)

(** X4: the loop of [blasi_1993.py], run with a step that always returns,
    returns four series of [nt] cells; cell 0 is wood = 1 and 0 for the
    others, and every later cell is what the step returns on the cell
    before it. *)
Theorem blasi_loop_recurrence
    (step : R -> R -> R -> R -> result (R * R * R * R))
    (f : R * R * R * R -> R * R * R * R) (nt : nat) :
  (forall w g a c, step w g a c = Ok (f (w, g, a, c))) ->
  exists wood gas tar char : list R,
    blasi_1993.products step nt = Ok (wood, gas, tar, char) /\
    length wood = nt /\ length gas = nt /\ length tar = nt /\
    length char = nt /\
    ((0 < nt)%nat ->
     wood !! 0%nat = Some 1 /\ gas !! 0%nat = Some 0 /\
     tar !! 0%nat = Some 0 /\ char !! 0%nat = Some 0) /\
    forall i : nat, (S i < nt)%nat ->
      exists w g a c w' g' a' c' : R,
        wood !! i = Some w /\ gas !! i = Some g /\ tar !! i = Some a /\
        char !! i = Some c /\
        step w g a c = Ok (w', g', a', c') /\
        wood !! S i = Some w' /\ gas !! S i = Some g' /\
        tar !! S i = Some a' /\ char !! S i = Some c'.
Proof.
  intros Hstep. rewrite (blasi_products_orbit step f Hstep nt). cbv zeta.
  set (x := orbit f blasi_1993.initial).
  do 4 eexists. split; [reflexivity |].
  rewrite !length_map, !length_seq. repeat apply conj; try reflexivity.
  - intros Hnt. rewrite !lookup_map_seq_lt by exact Hnt. repeat split.
  - intros i Hi.
    destruct (x i) as [[[w g] a] c] eqn:Ei.
    destruct (x (S i)) as [[[w' g'] a'] c'] eqn:Ei'.
    exists w, g, a, c, w', g', a', c'.
    rewrite !lookup_map_seq_lt by lia. rewrite Ei, Ei'. cbn [fst snd].
    repeat apply conj; try reflexivity.
    rewrite Hstep, <- Ei, <- Ei'. reflexivity.
Qed.

Lemma blasi_loop_recurrence_witness :
  exists wood gas tar char : list R,
    blasi_1993.products
      (fun w g a c => blasi_1993.blasi w g a c 773 0.01 2) 3
      = Ok (wood, gas, tar, char) /\
    length wood = 3%nat /\ length gas = 3%nat /\ length tar = 3%nat /\
    length char = 3%nat /\
    ((0 < 3)%nat ->
     wood !! 0%nat = Some 1 /\ gas !! 0%nat = Some 0 /\
     tar !! 0%nat = Some 0 /\ char !! 0%nat = Some 0) /\
    forall i : nat, (S i < 3)%nat ->
      exists w g a c w' g' a' c' : R,
        wood !! i = Some w /\ gas !! i = Some g /\ tar !! i = Some a /\
        char !! i = Some c /\
        blasi_1993.blasi w g a c 773 0.01 2 = Ok (w', g', a', c') /\
        wood !! S i = Some w' /\ gas !! S i = Some g' /\
        tar !! S i = Some a' /\ char !! S i = Some c'.
Proof.
  apply (blasi_loop_recurrence
           (fun w g a c => blasi_1993.blasi w g a c 773 0.01 2)
           (blasi_1993.euler (blasi_1993.constants_at 773) 0.01 2) 3).
  intros w g a c. apply blasi_returns; [lra | right; reflexivity].
Defined.

(** X5: the loop of [kn_liden_1988.py], run with a step that always
    returns, returns two series of [nt] cells; cell 0 is wood = 1 and
    tar = 0, and every later cell is what the step returns on the cell
    before it. *)
Theorem kn_liden_loop_recurrence
    (step : R -> R -> result (R * R)) (f : R * R -> R * R) (nt : nat) :
  (forall w a, step w a = Ok (f (w, a))) ->
  exists wood tar : list R,
    kn_liden_1988.products step nt = Ok (wood, tar) /\
    length wood = nt /\ length tar = nt /\
    ((0 < nt)%nat -> wood !! 0%nat = Some 1 /\ tar !! 0%nat = Some 0) /\
    forall i : nat, (S i < nt)%nat ->
      exists w a w' a' : R,
        wood !! i = Some w /\ tar !! i = Some a /\
        step w a = Ok (w', a') /\
        wood !! S i = Some w' /\ tar !! S i = Some a'.
Proof.
  intros Hstep. rewrite (kn_liden_products_orbit step f Hstep nt). cbv zeta.
  set (x := orbit f kn_liden_1988.initial).
  do 2 eexists. split; [reflexivity |].
  rewrite !length_map, !length_seq. repeat apply conj; try reflexivity.
  - intros Hnt. rewrite !lookup_map_seq_lt by exact Hnt. repeat split.
  - intros i Hi.
    destruct (x i) as [w a] eqn:Ei. destruct (x (S i)) as [w' a'] eqn:Ei'.
    exists w, a, w', a'.
    rewrite !lookup_map_seq_lt by lia. rewrite Ei, Ei'. cbn [fst snd].
    repeat apply conj; try reflexivity.
    rewrite Hstep, <- Ei, <- Ei'. reflexivity.
Qed.

Lemma kn_liden_loop_recurrence_witness :
  exists wood tar : list R,
    kn_liden_1988.products
      (fun w a => kn_liden_1988.liden w a 773 0.01 1) 3 = Ok (wood, tar) /\
    length wood = 3%nat /\ length tar = 3%nat /\
    ((0 < 3)%nat -> wood !! 0%nat = Some 1 /\ tar !! 0%nat = Some 0) /\
    forall i : nat, (S i < 3)%nat ->
      exists w a w' a' : R,
        wood !! i = Some w /\ tar !! i = Some a /\
        kn_liden_1988.liden w a 773 0.01 1 = Ok (w', a') /\
        wood !! S i = Some w' /\ tar !! S i = Some a'.
Proof.
  apply (kn_liden_loop_recurrence
           (fun w a => kn_liden_1988.liden w a 773 0.01 1)
           (kn_liden_1988.euler (kn_liden_1988.constants_at 773) 0.01 1) 3).
  intros w a. apply kn_liden_returns; [lra | left; reflexivity].
Defined.

(** X6: a loop over fewer than two time steps never calls its step: with
    [nt] 0 or 1 the three loops return their starting arrays, whatever the
    step would do. *)
Theorem short_loops_do_not_step
    (stepB step0 step1 : R -> R -> R -> R -> result (R * R * R * R))
    (step2 : R -> R -> R -> R -> R -> R -> result (R * R * R * R * R * R))
    (stepK : R -> R -> result (R * R)) (nt : nat) :
  (nt <= 1)%nat ->
  blasi_1993.products stepB nt
    = Ok (ones nt, zeros nt, zeros nt, zeros nt) /\
  liden_1988.products step0 step1 step2 nt
    = Ok (ones2 3 nt, zeros2 3 nt, zeros2 3 nt, zeros2 3 nt,
          zeros nt, zeros nt) /\
  kn_liden_1988.products stepK nt = Ok (ones nt, zeros nt).
Proof.
  intros Hnt.
  assert (E : (nt - 1)%nat = 0%nat) by lia.
  unfold blasi_1993.products, liden_1988.products, kn_liden_1988.products.
  rewrite E. repeat split.
Qed.

Lemma short_loops_do_not_step_witness :
  blasi_1993.products (fun _ _ _ _ => Raise UnboundLocalError) 1
    = Ok (ones 1, zeros 1, zeros 1, zeros 1) /\
  liden_1988.products (fun _ _ _ _ => Raise UnboundLocalError)
    (fun _ _ _ _ => Raise UnboundLocalError)
    (fun _ _ _ _ _ _ => Raise ZeroDivisionError) 1
    = Ok (ones2 3 1, zeros2 3 1, zeros2 3 1, zeros2 3 1, zeros 1, zeros 1) /\
  kn_liden_1988.products (fun _ _ => Raise UnboundLocalError) 1
    = Ok (ones 1, zeros 1).
Proof.
  apply (short_loops_do_not_step
           (fun _ _ _ _ => Raise UnboundLocalError)
           (fun _ _ _ _ => Raise UnboundLocalError)
           (fun _ _ _ _ => Raise UnboundLocalError)
           (fun _ _ _ _ _ _ => Raise ZeroDivisionError)
           (fun _ _ => Raise UnboundLocalError) 1).
  lia.
Defined.

(** X7: with two time steps or more, an exception of the step on the
    starting state ends the loop with that exception: no series is
    returned. *)
Theorem loops_propagate_exceptions
    (stepB step0 step1 : R -> R -> R -> R -> result (R * R * R * R))
    (step2 : R -> R -> R -> R -> R -> R -> result (R * R * R * R * R * R))
    (stepK : R -> R -> result (R * R)) (nt : nat) (eB e0 eK : exn) :
  (2 <= nt)%nat ->
  stepB 1 0 0 0 = Raise eB -> step0 1 0 0 0 = Raise e0 ->
  stepK 1 0 = Raise eK ->
  blasi_1993.products stepB nt = Raise eB /\
  liden_1988.products step0 step1 step2 nt = Raise e0 /\
  kn_liden_1988.products stepK nt = Raise eK.
Proof.
  intros Hnt HB H0 HK.
  destruct nt as [| [| n]]; [lia | lia |].
  unfold blasi_1993.products, liden_1988.products, kn_liden_1988.products.
  replace (S (S n) - 1)%nat with (S n) by lia.
  unfold ones2, zeros2, ones, zeros, getitem2, getitem.
  cbn [for_range Nat.sub replicate lookup list_lookup mbind result_bind].
  rewrite HB, H0, HK. repeat split.
Qed.

Lemma loops_propagate_exceptions_witness :
  blasi_1993.products
    (fun w g a c => blasi_1993.blasi w g a c 0 0.01 1) 2500
    = Raise ZeroDivisionError /\
  liden_1988.products
    (fun w g a c => liden_1988.liden w g a c 0 0.01 1)
    (fun w g a c => liden_1988.liden w g a c 0 0.01 2)
    (fun w g a c x y => liden_1988.liden2 w g a c x y 0 0.01) 2500
    = Raise ZeroDivisionError /\
  kn_liden_1988.products
    (fun w a => kn_liden_1988.liden w a 0 0.01 1) 2500
    = Raise ZeroDivisionError.
Proof.
  apply (loops_propagate_exceptions
           (fun w g a c => blasi_1993.blasi w g a c 0 0.01 1)
           (fun w g a c => liden_1988.liden w g a c 0 0.01 1)
           (fun w g a c => liden_1988.liden w g a c 0 0.01 2)
           (fun w g a c x y => liden_1988.liden2 w g a c x y 0 0.01)
           (fun w a => kn_liden_1988.liden w a 0 0.01 1) 2500).
  - lia.
  - unfold blasi_1993.blasi. rewrite blasi_constants_zero. reflexivity.
  - unfold liden_1988.liden. rewrite liden_constants_zero. reflexivity.
  - unfold kn_liden_1988.liden. rewrite kn_liden_constants_zero.
    reflexivity.
Defined.

(** ** Wood in closed form *)

Section Geometric.

Context {State : Type}.
Variables (f : State -> State) (wood : State -> R) (K dt : R) (x0 : State).
Hypothesis wood_f : forall x, wood (f x) = wood x + - K * wood x * dt.

Lemma orbit_wood_geometric (i : nat) :
  wood (orbit f x0 i) = wood x0 * (1 - K * dt) ^ i.
Proof.
  induction i as [| i IH]; cbn [orbit pow]; [ring |].
  rewrite wood_f, IH. ring.
Qed.

End Geometric.

Lemma euler_below_exponential (K dt : R) (i : nat) :
  K * dt <= 1 -> (1 - K * dt) ^ i <= exp (- (K * (INR i * dt))).
Proof.
  intros Hs.
  replace (- (K * (INR i * dt))) with (INR i * - (K * dt)) by ring.
  rewrite exp_mult_nat. apply pow_incr. split; [lra |].
  pose proof (exp_ineq1_le (- (K * dt))). lra.
Qed.

Lemma blasi_orbit_wood (k : blasi_1993.rate_constants) (dt : R) (s : Z)
    (i : nat) :
  s = 1%Z \/ s = 2%Z ->
  (orbit (blasi_1993.euler k dt s) blasi_1993.initial i).1.1.1 =
    (1 - (blasi_1993.K1 k + blasi_1993.K2 k + blasi_1993.K3 k) * dt) ^ i.
Proof.
  intros Hs.
  rewrite (orbit_wood_geometric _ (fun x => x.1.1.1)
             (blasi_1993.K1 k + blasi_1993.K2 k + blasi_1993.K3 k) dt).
  - cbn [blasi_1993.initial fst]. ring.
  - intros x. apply blasi_euler_wood. exact Hs.
Qed.

Lemma liden_orbit_wood (k : liden_1988.rate_constants) (dt : R) (s : Z)
    (i : nat) :
  s = 1%Z \/ s = 2%Z ->
  (orbit (liden_1988.euler k dt s) liden_1988.initial i).1.1.1 =
    (1 - liden_1988.K k * dt) ^ i.
Proof.
  intros Hs.
  rewrite (orbit_wood_geometric _ (fun x => x.1.1.1) (liden_1988.K k) dt).
  - cbn [liden_1988.initial fst]. ring.
  - intros x. apply liden_euler_wood. exact Hs.
Qed.

Lemma liden_orbit2_wood (k : liden_1988.rate_constants) (dt : R) (i : nat) :
  (orbit (liden_1988.euler2 k dt) liden_1988.initial2 i).1.1.1.1.1 =
    (1 - liden_1988.K k * dt) ^ i.
Proof.
  rewrite (orbit_wood_geometric _ (fun x => x.1.1.1.1.1)
             (liden_1988.K k) dt).
  - cbn [liden_1988.initial2 fst]. ring.
  - intros x. apply liden_euler2_wood.
Qed.

Lemma kn_liden_orbit_wood (k : kn_liden_1988.rate_constants) (dt : R)
    (s : Z) (i : nat) :
  s = 1%Z \/ s = 2%Z ->
  (orbit (kn_liden_1988.euler k dt s) kn_liden_1988.initial i).1 =
    (1 - kn_liden_1988.K k * dt) ^ i.
Proof.
  intros Hs.
  rewrite (orbit_wood_geometric _ (fun x => x.1) (kn_liden_1988.K k) dt).
  - cbn [kn_liden_1988.initial fst]. ring.
  - intros x. apply kn_liden_euler_wood. exact Hs.
Qed.

(** X8: in every loop of the scripts the wood series is a geometric
    sequence: cell [i] holds [(1 - K * dt) ^ i], with K the sum of the three
    wood constants of Blasi, or the overall constant of Liden. *)
Theorem wood_series_is_geometric (T dt : R) (s : Z) (nt : nat) :
  T <> 0 -> s = 1%Z \/ s = 2%Z ->
  (exists w g a c,
     blasi_1993.products (fun w g a c => blasi_1993.blasi w g a c T dt s) nt
       = Ok (w, g, a, c) /\
     forall (i : nat) (x : R), w !! i = Some x ->
       let k := blasi_1993.constants_at T in
       x = (1 - (blasi_1993.K1 k + blasi_1993.K2 k + blasi_1993.K3 k) * dt)
           ^ i) /\
  (exists w0 w1 w2 g a c x y,
     liden_1988.products
       (fun w g a c => liden_1988.liden w g a c T dt 1)
       (fun w g a c => liden_1988.liden w g a c T dt 2)
       (fun w g a c x y => liden_1988.liden2 w g a c x y T dt) nt
       = Ok ([w0; w1; w2], g, a, c, x, y) /\
     forall (i : nat) (v : R),
       w0 !! i = Some v \/ w1 !! i = Some v \/ w2 !! i = Some v ->
       v = (1 - liden_1988.K (liden_1988.constants_at T) * dt) ^ i) /\
  (exists w a,
     kn_liden_1988.products (fun w a => kn_liden_1988.liden w a T dt s) nt
       = Ok (w, a) /\
     forall (i : nat) (x : R), w !! i = Some x ->
       x = (1 - kn_liden_1988.K (kn_liden_1988.constants_at T) * dt) ^ i).
Proof.
  intros HT Hs. repeat apply conj.
  - rewrite (blasi_products_orbit _
               (blasi_1993.euler (blasi_1993.constants_at T) dt s))
      by (intros; apply blasi_returns; assumption).
    do 4 eexists. split; [reflexivity |]. intros i x Hx.
    apply lookup_map_seq in Hx as [-> _]. cbv zeta.
    apply blasi_orbit_wood. exact Hs.
  - rewrite (liden_products_orbit _ _ _
               (liden_1988.euler (liden_1988.constants_at T) dt 1)
               (liden_1988.euler (liden_1988.constants_at T) dt 2)
               (liden_1988.euler2 (liden_1988.constants_at T) dt)).
    + do 8 eexists. split; [reflexivity |]. intros i v [Hv | [Hv | Hv]];
        apply lookup_map_seq in Hv as [-> _].
      * apply liden_orbit_wood. left. reflexivity.
      * apply liden_orbit_wood. right. reflexivity.
      * apply liden_orbit2_wood.
    + intros. apply liden_returns; [assumption | left; reflexivity].
    + intros. apply liden_returns; [assumption | right; reflexivity].
    + intros. apply liden2_returns; assumption.
  - rewrite (kn_liden_products_orbit _
               (kn_liden_1988.euler (kn_liden_1988.constants_at T) dt s))
      by (intros; apply kn_liden_returns; assumption).
    do 2 eexists. split; [reflexivity |]. intros i x Hx.
    apply lookup_map_seq in Hx as [-> _].
    apply kn_liden_orbit_wood. exact Hs.
Qed.

Lemma wood_series_is_geometric_witness :
  (exists w g a c,
     blasi_1993.products
       (fun w g a c => blasi_1993.blasi w g a c 773 0.01 1) 4
       = Ok (w, g, a, c) /\
     forall (i : nat) (x : R), w !! i = Some x ->
       let k := blasi_1993.constants_at 773 in
       x = (1 - (blasi_1993.K1 k + blasi_1993.K2 k + blasi_1993.K3 k)
                * 0.01) ^ i) /\
  (exists w0 w1 w2 g a c x y,
     liden_1988.products
       (fun w g a c => liden_1988.liden w g a c 773 0.01 1)
       (fun w g a c => liden_1988.liden w g a c 773 0.01 2)
       (fun w g a c x y => liden_1988.liden2 w g a c x y 773 0.01) 4
       = Ok ([w0; w1; w2], g, a, c, x, y) /\
     forall (i : nat) (v : R),
       w0 !! i = Some v \/ w1 !! i = Some v \/ w2 !! i = Some v ->
       v = (1 - liden_1988.K (liden_1988.constants_at 773) * 0.01) ^ i) /\
  (exists w a,
     kn_liden_1988.products
       (fun w a => kn_liden_1988.liden w a 773 0.01 1) 4 = Ok (w, a) /\
     forall (i : nat) (x : R), w !! i = Some x ->
       x = (1 - kn_liden_1988.K (kn_liden_1988.constants_at 773) * 0.01)
           ^ i).
Proof.
  apply (wood_series_is_geometric 773 0.01 1 4); [lra | left; reflexivity].
Defined.

(** X9: in each scheme, when its wood constant times dt is at most 1, the
    wood the loop computes never exceeds the exact decay: cell [i] is at
    most [exp (- K * t)] at the time [t = i * dt] of that cell.  Each scheme
    needs the bound on its own constant only. *)
Theorem wood_series_below_exact_decay (T dt : R) (s : Z) (nt : nat) :
  T <> 0 -> s = 1%Z \/ s = 2%Z ->
  ((blasi_1993.K1 (blasi_1993.constants_at T)
   + blasi_1993.K2 (blasi_1993.constants_at T)
   + blasi_1993.K3 (blasi_1993.constants_at T)) * dt <= 1 ->
   (exists w g a c,
     blasi_1993.products (fun w g a c => blasi_1993.blasi w g a c T dt s) nt
       = Ok (w, g, a, c) /\
     forall (i : nat) (x : R), w !! i = Some x ->
       let k := blasi_1993.constants_at T in
       x <= exp (- ((blasi_1993.K1 k + blasi_1993.K2 k + blasi_1993.K3 k)
                    * (INR i * dt))))) /\
  (liden_1988.K (liden_1988.constants_at T) * dt <= 1 ->
   (exists w0 w1 w2 g a c x y,
     liden_1988.products
       (fun w g a c => liden_1988.liden w g a c T dt 1)
       (fun w g a c => liden_1988.liden w g a c T dt 2)
       (fun w g a c x y => liden_1988.liden2 w g a c x y T dt) nt
       = Ok ([w0; w1; w2], g, a, c, x, y) /\
     forall (i : nat) (v : R),
       w0 !! i = Some v \/ w1 !! i = Some v \/ w2 !! i = Some v ->
       v <= exp (- (liden_1988.K (liden_1988.constants_at T)
                    * (INR i * dt))))) /\
  (kn_liden_1988.K (kn_liden_1988.constants_at T) * dt <= 1 ->
   (exists w a,
     kn_liden_1988.products (fun w a => kn_liden_1988.liden w a T dt s) nt
       = Ok (w, a) /\
     forall (i : nat) (x : R), w !! i = Some x ->
       x <= exp (- (kn_liden_1988.K (kn_liden_1988.constants_at T)
                    * (INR i * dt))))).
Proof.
  intros HT Hs. repeat apply conj.
  - intros HB.
    rewrite (blasi_products_orbit _
               (blasi_1993.euler (blasi_1993.constants_at T) dt s))
      by (intros; apply blasi_returns; assumption).
    do 4 eexists. split; [reflexivity |]. intros i x Hx.
    apply lookup_map_seq in Hx as [-> _]. cbv zeta.
    rewrite (blasi_orbit_wood _ _ _ _ Hs).
    apply euler_below_exponential. exact HB.
  - intros HL.
    rewrite (liden_products_orbit _ _ _
               (liden_1988.euler (liden_1988.constants_at T) dt 1)
               (liden_1988.euler (liden_1988.constants_at T) dt 2)
               (liden_1988.euler2 (liden_1988.constants_at T) dt)).
    + do 8 eexists. split; [reflexivity |]. intros i v [Hv | [Hv | Hv]];
        apply lookup_map_seq in Hv as [-> _].
      * rewrite liden_orbit_wood by (left; reflexivity).
        apply euler_below_exponential. exact HL.
      * rewrite liden_orbit_wood by (right; reflexivity).
        apply euler_below_exponential. exact HL.
      * rewrite liden_orbit2_wood.
        apply euler_below_exponential. exact HL.
    + intros. apply liden_returns; [assumption | left; reflexivity].
    + intros. apply liden_returns; [assumption | right; reflexivity].
    + intros. apply liden2_returns; assumption.
  - intros HK.
    rewrite (kn_liden_products_orbit _
               (kn_liden_1988.euler (kn_liden_1988.constants_at T) dt s))
      by (intros; apply kn_liden_returns; assumption).
    do 2 eexists. split; [reflexivity |]. intros i x Hx.
    apply lookup_map_seq in Hx as [-> _].
    rewrite (kn_liden_orbit_wood _ _ _ _ Hs).
    apply euler_below_exponential. exact HK.
Qed.

Lemma wood_series_below_exact_decay_witness :
  (exists w g a c,
     blasi_1993.products (fun w g a c => blasi_1993.blasi w g a c 773 0.01 1) 4
       = Ok (w, g, a, c) /\
     forall (i : nat) (x : R), w !! i = Some x ->
       let k := blasi_1993.constants_at 773 in
       x <= exp (- ((blasi_1993.K1 k + blasi_1993.K2 k + blasi_1993.K3 k)
                    * (INR i * 0.01)))) /\
  (exists w0 w1 w2 g a c x y,
     liden_1988.products
       (fun w g a c => liden_1988.liden w g a c 773 0.01 1)
       (fun w g a c => liden_1988.liden w g a c 773 0.01 2)
       (fun w g a c x y => liden_1988.liden2 w g a c x y 773 0.01) 4
       = Ok ([w0; w1; w2], g, a, c, x, y) /\
     forall (i : nat) (v : R),
       w0 !! i = Some v \/ w1 !! i = Some v \/ w2 !! i = Some v ->
       v <= exp (- (liden_1988.K (liden_1988.constants_at 773)
                    * (INR i * 0.01)))) /\
  (exists w a,
     kn_liden_1988.products (fun w a => kn_liden_1988.liden w a 773 0.01 1) 4
       = Ok (w, a) /\
     forall (i : nat) (x : R), w !! i = Some x ->
       x <= exp (- (kn_liden_1988.K (kn_liden_1988.constants_at 773)
                    * (INR i * 0.01)))).
Proof.
  destruct (wood_series_below_exact_decay 773 0.01 1 4) as (HB & HL & HK);
    [lra | left; reflexivity |].
  pose proof blasi_K_773 as PB. cbv zeta in PB.
  pose proof liden_K_773 as PL.
  repeat apply conj.
  - apply HB. lra.
  - apply HL. cbn [liden_1988.constants_at liden_1988.K].
    unfold liden_1988.A, liden_1988.E, liden_1988.Rgas. lra.
  - apply HK. cbn [kn_liden_1988.constants_at kn_liden_1988.K].
    unfold kn_liden_1988.A, kn_liden_1988.E, kn_liden_1988.Rgas. lra.
Defined.

(** ** How the series of [liden_1988.py] relate *)

Lemma liden_orbits_related (k : liden_1988.rate_constants) (dt : R)
    (i : nat) :
  let x0 := orbit (liden_1988.euler k dt 1) liden_1988.initial i in
  let x1 := orbit (liden_1988.euler k dt 2) liden_1988.initial i in
  let x2 := orbit (liden_1988.euler2 k dt) liden_1988.initial2 i in
  (x0.1.1.1 = x1.1.1.1 /\ x0.2 = x1.2 /\ x0.1.1.2 = 0 /\
   x0.1.2 = x1.1.2 + x1.1.1.2) /\
  (x2.1.1.1.1.1 = x1.1.1.1 /\ x2.1.1.1.1.2 = x1.1.1.2 /\
   x2.1.1.1.2 = x1.1.2 /\ x2.1.1.2 = x1.2) /\
  (x2.1.2 = x1.1.1.2 + liden_1988.g3 * x1.2 /\ x2.2 = liden_1988.c3 * x1.2).
Proof.
  induction i as [| i IH]; cbn [orbit].
  - cbn [liden_1988.initial liden_1988.initial2 fst snd].
    repeat split; ring.
  - cbv zeta in IH.
    destruct (orbit (liden_1988.euler k dt 1) liden_1988.initial i)
      as [[[w0 g0] a0] c0].
    destruct (orbit (liden_1988.euler k dt 2) liden_1988.initial i)
      as [[[w1 g1] a1] c1].
    destruct (orbit (liden_1988.euler2 k dt) liden_1988.initial2 i)
      as [[[[[w2 g2] a2] c2] u] v].
    cbn [fst snd] in IH.
    destruct IH as ((-> & -> & -> & ->) & (-> & -> & -> & ->) & _).
    cbn [liden_1988.euler liden_1988.update Z.eqb Pos.eqb
         liden_1988.euler2 fst snd].
    unfold liden_1988.update2. cbv zeta. cbn [fst snd].
    repeat split; ring.
Qed.

(** X10: in [liden_1988.py] the selector changes neither wood nor the
    gas+char lump: rows 0 and 1 of [wood] and of [gaschar] are equal.  Row 0
    of [gas1] is 0 throughout, and the tar of the primary scheme is, cell by
    cell, the tar plus the gas1 of the primary and secondary scheme. *)
Theorem liden_secondary_moves_tar_to_gas (T dt : R) (nt : nat) :
  T <> 0 ->
  exists w w2 g1 g2 a0 a1 a2 c c2 x y : list R,
    liden_1988.products
      (fun w g a c => liden_1988.liden w g a c T dt 1)
      (fun w g a c => liden_1988.liden w g a c T dt 2)
      (fun w g a c x y => liden_1988.liden2 w g a c x y T dt) nt
      = Ok ([w; w; w2], [zeros nt; g1; g2], [a0; a1; a2], [c; c; c2],
            x, y) /\
    forall (i : nat) (p q r : R),
      a0 !! i = Some p -> a1 !! i = Some q -> g1 !! i = Some r ->
      p = q + r.
Proof.
  intros HT.
  set (k := liden_1988.constants_at T).
  rewrite (liden_products_orbit _ _ _
             (liden_1988.euler k dt 1) (liden_1988.euler k dt 2)
             (liden_1988.euler2 k dt)).
  2: intros; apply liden_returns; [assumption | left; reflexivity].
  2: intros; apply liden_returns; [assumption | right; reflexivity].
  2: intros; apply liden2_returns; assumption.
  cbv zeta.
  rewrite (map_ext (fun i => (orbit (liden_1988.euler k dt 1)
                                liden_1988.initial i).1.1.1)
             (fun i => (orbit (liden_1988.euler k dt 2)
                          liden_1988.initial i).1.1.1))
    by (intros i; apply (liden_orbits_related k dt i)).
  rewrite (map_ext (fun i => (orbit (liden_1988.euler k dt 1)
                                liden_1988.initial i).2)
             (fun i => (orbit (liden_1988.euler k dt 2)
                          liden_1988.initial i).2))
    by (intros i; apply (liden_orbits_related k dt i)).
  rewrite (map_const_seq 0
             (fun i => (orbit (liden_1988.euler k dt 1)
                          liden_1988.initial i).1.1.2))
    by (intros i; apply (liden_orbits_related k dt i)).
  do 11 eexists. split; [reflexivity |].
  intros i p q r Hp Hq Hr.
  apply lookup_map_seq in Hp as [-> _]. apply lookup_map_seq in Hq as [-> _].
  apply lookup_map_seq in Hr as [-> _].
  apply (liden_orbits_related k dt i).
Qed.

Lemma liden_secondary_moves_tar_to_gas_witness :
  exists w w2 g1 g2 a0 a1 a2 c c2 x y : list R,
    liden_1988.products
      (fun w g a c => liden_1988.liden w g a c 773 0.01 1)
      (fun w g a c => liden_1988.liden w g a c 773 0.01 2)
      (fun w g a c x y => liden_1988.liden2 w g a c x y 773 0.01) 4
      = Ok ([w; w; w2], [zeros 4; g1; g2], [a0; a1; a2], [c; c; c2],
            x, y) /\
    forall (i : nat) (p q r : R),
      a0 !! i = Some p -> a1 !! i = Some q -> g1 !! i = Some r ->
      p = q + r.
Proof. apply (liden_secondary_moves_tar_to_gas 773 0.01 4). lra. Defined.

(** X11: in [liden_1988.py] the series [liden2] produces for wood, gas1,
    tar and gaschar (row 2) are the series [liden] produces with [s = 2]
    (row 1), and the flat series are gas = gas1 + g3 * gaschar and
    char = c3 * gaschar in every cell, the first included. *)
Theorem liden2_series_follow_liden (T dt : R) (nt : nat) :
  T <> 0 ->
  exists w0 w1 g0 g1 a0 a1 c0 c1 x y : list R,
    liden_1988.products
      (fun w g a c => liden_1988.liden w g a c T dt 1)
      (fun w g a c => liden_1988.liden w g a c T dt 2)
      (fun w g a c x y => liden_1988.liden2 w g a c x y T dt) nt
      = Ok ([w0; w1; w1], [g0; g1; g1], [a0; a1; a1], [c0; c1; c1],
            x, y) /\
    forall (i : nat) (g c u v : R),
      g1 !! i = Some g -> c1 !! i = Some c ->
      x !! i = Some u -> y !! i = Some v ->
      u = g + liden_1988.g3 * c /\ v = liden_1988.c3 * c.
Proof.
  intros HT.
  set (k := liden_1988.constants_at T).
  rewrite (liden_products_orbit _ _ _
             (liden_1988.euler k dt 1) (liden_1988.euler k dt 2)
             (liden_1988.euler2 k dt)).
  2: intros; apply liden_returns; [assumption | left; reflexivity].
  2: intros; apply liden_returns; [assumption | right; reflexivity].
  2: intros; apply liden2_returns; assumption.
  cbv zeta.
  rewrite (map_ext (fun i => (orbit (liden_1988.euler2 k dt)
                                liden_1988.initial2 i).1.1.1.1.1)
             (fun i => (orbit (liden_1988.euler k dt 2)
                          liden_1988.initial i).1.1.1))
    by (intros i; apply (liden_orbits_related k dt i)).
  rewrite (map_ext (fun i => (orbit (liden_1988.euler2 k dt)
                                liden_1988.initial2 i).1.1.1.1.2)
             (fun i => (orbit (liden_1988.euler k dt 2)
                          liden_1988.initial i).1.1.2))
    by (intros i; apply (liden_orbits_related k dt i)).
  rewrite (map_ext (fun i => (orbit (liden_1988.euler2 k dt)
                                liden_1988.initial2 i).1.1.1.2)
             (fun i => (orbit (liden_1988.euler k dt 2)
                          liden_1988.initial i).1.2))
    by (intros i; apply (liden_orbits_related k dt i)).
  rewrite (map_ext (fun i => (orbit (liden_1988.euler2 k dt)
                                liden_1988.initial2 i).1.1.2)
             (fun i => (orbit (liden_1988.euler k dt 2)
                          liden_1988.initial i).2))
    by (intros i; apply (liden_orbits_related k dt i)).
  do 10 eexists. split; [reflexivity |].
  intros i g c u v Hg Hc Hu Hv.
  apply lookup_map_seq in Hg as [-> _]. apply lookup_map_seq in Hc as [-> _].
  apply lookup_map_seq in Hu as [-> _]. apply lookup_map_seq in Hv as [-> _].
  apply (liden_orbits_related k dt i).
Qed.

Lemma liden2_series_follow_liden_witness :
  exists w0 w1 g0 g1 a0 a1 c0 c1 x y : list R,
    liden_1988.products
      (fun w g a c => liden_1988.liden w g a c 773 0.01 1)
      (fun w g a c => liden_1988.liden w g a c 773 0.01 2)
      (fun w g a c x y => liden_1988.liden2 w g a c x y 773 0.01) 4
      = Ok ([w0; w1; w1], [g0; g1; g1], [a0; a1; a1], [c0; c1; c1],
            x, y) /\
    forall (i : nat) (g c u v : R),
      g1 !! i = Some g -> c1 !! i = Some c ->
      x !! i = Some u -> y !! i = Some v ->
      u = g + liden_1988.g3 * c /\ v = liden_1988.c3 * c.
Proof. apply (liden2_series_follow_liden 773 0.01 4). lra. Defined.

(** ** Yields tied to the wood consumed *)

Lemma kn_liden_euler_invariant (k : kn_liden_1988.rate_constants) (dt : R)
    (s : Z) (x : R * R) :
  let y := kn_liden_1988.euler k dt s x in
  kn_liden_1988.K k * y.2 - kn_liden_1988.K2 k * y.1 =
  kn_liden_1988.K k * x.2 - kn_liden_1988.K2 k * x.1.
Proof.
  destruct x as [w a]. unfold kn_liden_1988.euler, kn_liden_1988.update.
  destruct (s =? 1)%Z; [cbv zeta; cbn [fst snd]; ring |].
  destruct (s =? 2)%Z; [cbv zeta; cbn [fst snd]; ring | reflexivity].
Qed.

Lemma kn_liden_orbit_invariant (k : kn_liden_1988.rate_constants) (dt : R)
    (s : Z) (i : nat) :
  let x := orbit (kn_liden_1988.euler k dt s) kn_liden_1988.initial i in
  kn_liden_1988.K k * x.2 = kn_liden_1988.K2 k * (x.1 - 1).
Proof.
  induction i as [| i IH]; cbn [orbit].
  - cbn [kn_liden_1988.initial fst snd]. ring.
  - cbv zeta in IH. pose proof (kn_liden_euler_invariant k dt s
      (orbit (kn_liden_1988.euler k dt s) kn_liden_1988.initial i)) as H.
    cbv zeta in H. lra.
Qed.

(** X12: in [kn_liden_1988.py] a step keeps [K * tar - K2 * wood], so along
    the loop [K * tar = K2 * (wood - 1)] in every cell: tar is the wood
    consumed so far scaled by [- K2 / K].  With dt >= 0 and K * dt <= 1 no
    tar cell is positive. *)
Theorem kn_liden_tar_mirrors_wood (wood tar T dt : R) (s : Z) (nt : nat) :
  T <> 0 -> s = 1%Z \/ s = 2%Z ->
  let K := kn_liden_1988.K (kn_liden_1988.constants_at T) in
  let K2 := kn_liden_1988.K2 (kn_liden_1988.constants_at T) in
  (exists w' a',
     kn_liden_1988.liden wood tar T dt s = Ok (w', a') /\
     K * a' - K2 * w' = K * tar - K2 * wood) /\
  (exists w a,
     kn_liden_1988.products (fun w a => kn_liden_1988.liden w a T dt s) nt
       = Ok (w, a) /\
     forall (i : nat) (p q : R), w !! i = Some p -> a !! i = Some q ->
       K * q = K2 * (p - 1) /\ (0 <= dt -> K * dt <= 1 -> q <= 0)).
Proof.
  intros HT Hs K K2. subst K K2. set (k := kn_liden_1988.constants_at T).
  destruct (kn_liden_constants_pos T) as [HK HK2]. cbv zeta in HK, HK2.
  fold k in HK, HK2.
  split.
  - rewrite (kn_liden_returns _ _ _ _ _ HT Hs). fold k.
    destruct (kn_liden_1988.euler k dt s (wood, tar)) as [w' a'] eqn:E.
    exists w', a'. split; [reflexivity |].
    pose proof (kn_liden_euler_invariant k dt s (wood, tar)) as H.
    cbv zeta in H. rewrite E in H. exact H.
  - rewrite (kn_liden_products_orbit _ (kn_liden_1988.euler k dt s))
      by (intros; apply kn_liden_returns; assumption).
    do 2 eexists. split; [reflexivity |]. intros i p q Hp Hq.
    apply lookup_map_seq in Hp as [-> _]. apply lookup_map_seq in Hq as [-> _].
    pose proof (kn_liden_orbit_invariant k dt s i) as Hinv.
    cbv zeta in Hinv. split; [exact Hinv |].
    intros Hdt Hst.
    assert (Hw : (orbit (kn_liden_1988.euler k dt s)
                    kn_liden_1988.initial i).1 <= 1).
    { rewrite (kn_liden_orbit_wood _ _ _ _ Hs).
      assert (0 <= kn_liden_1988.K k * dt) by nra.
      apply Rle_trans with (1 ^ i); [| rewrite pow1; lra].
      apply pow_incr. lra. }
    nra.
Qed.

Lemma kn_liden_tar_mirrors_wood_witness :
  let K := kn_liden_1988.K (kn_liden_1988.constants_at 773) in
  let K2 := kn_liden_1988.K2 (kn_liden_1988.constants_at 773) in
  (exists w' a',
     kn_liden_1988.liden 1 0 773 0.01 1 = Ok (w', a') /\
     K * a' - K2 * w' = K * 0 - K2 * 1) /\
  (exists w a,
     kn_liden_1988.products
       (fun w a => kn_liden_1988.liden w a 773 0.01 1) 4 = Ok (w, a) /\
     forall (i : nat) (p q : R), w !! i = Some p -> a !! i = Some q ->
       K * q = K2 * (p - 1) /\ (0 <= 0.01 -> K * 0.01 <= 1 -> q <= 0)).
Proof.
  apply (kn_liden_tar_mirrors_wood 1 0 773 0.01 1 4);
    [lra | left; reflexivity].
Defined.




(** ** Series that stay mass fractions *)

Lemma non_decreasing_map (g : nat -> R) (n : nat) :
  (forall i, g i <= g (S i)) -> non_decreasing (map g (seq 0 n)).
Proof.
  intros Hg i x y Hx Hy.
  apply lookup_map_seq in Hx as [-> _]. apply lookup_map_seq in Hy as [-> _].
  apply Hg.
Qed.

Lemma within_map (lo hi : R) (g : nat -> R) (n : nat) :
  (forall i, lo <= g i <= hi) -> within lo hi (map g (seq 0 n)).
Proof.
  intros Hg i x Hx. apply lookup_map_seq in Hx as [-> _]. apply Hg.
Qed.

Section BlasiStable.

Variables (k : blasi_1993.rate_constants) (dt : R) (s : Z).
Hypothesis selector : s = 1%Z \/ s = 2%Z.
Hypothesis K1_pos : 0 <= blasi_1993.K1 k.
Hypothesis K2_pos : 0 <= blasi_1993.K2 k.
Hypothesis K3_pos : 0 <= blasi_1993.K3 k.
Hypothesis K4_pos : 0 <= blasi_1993.K4 k.
Hypothesis K5_pos : 0 <= blasi_1993.K5 k.
Hypothesis dt_pos : 0 <= dt.
Hypothesis wood_stable :
  (blasi_1993.K1 k + blasi_1993.K2 k + blasi_1993.K3 k) * dt <= 1.
Hypothesis tar_stable : (blasi_1993.K4 k + blasi_1993.K5 k) * dt <= 1.

Lemma blasi_euler_nonneg (w g a c : R) :
  0 <= w -> 0 <= g -> 0 <= a -> 0 <= c ->
  let y := blasi_1993.euler k dt s (w, g, a, c) in
  (0 <= y.1.1.1 /\ 0 <= y.1.1.2 /\ 0 <= y.1.2 /\ 0 <= y.2) /\
  g <= y.1.1.2 /\ c <= y.2.
Proof.
  intros Hw Hg Ha Hc.
  assert (P1 : 0 <= blasi_1993.K1 k * w * dt)
    by (apply Rmult_le_pos; [apply Rmult_le_pos |]; assumption).
  assert (P2 : 0 <= blasi_1993.K2 k * w * dt)
    by (apply Rmult_le_pos; [apply Rmult_le_pos |]; assumption).
  assert (P3 : 0 <= blasi_1993.K3 k * w * dt)
    by (apply Rmult_le_pos; [apply Rmult_le_pos |]; assumption).
  assert (P4 : 0 <= blasi_1993.K4 k * a * dt)
    by (apply Rmult_le_pos; [apply Rmult_le_pos |]; assumption).
  assert (P5 : 0 <= blasi_1993.K5 k * a * dt)
    by (apply Rmult_le_pos; [apply Rmult_le_pos |]; assumption).
  assert (Pw : 0 <= w * (1 - (blasi_1993.K1 k + blasi_1993.K2 k
                                + blasi_1993.K3 k) * dt))
    by (apply Rmult_le_pos; lra).
  assert (Pa : 0 <= a * (1 - (blasi_1993.K4 k + blasi_1993.K5 k) * dt))
    by (apply Rmult_le_pos; lra).
  destruct selector as [-> | ->];
    cbn [blasi_1993.euler blasi_1993.update Z.eqb Pos.eqb];
    cbv zeta; cbn [fst snd]; repeat split; nra.
Qed.

Lemma blasi_orbit_nonneg (i : nat) :
  let x := orbit (blasi_1993.euler k dt s) blasi_1993.initial i in
  0 <= x.1.1.1 /\ 0 <= x.1.1.2 /\ 0 <= x.1.2 /\ 0 <= x.2.
Proof.
  induction i as [| i IH]; cbn [orbit].
  - cbn [blasi_1993.initial fst snd]. repeat split; lra.
  - cbv zeta in IH.
    destruct (orbit (blasi_1993.euler k dt s) blasi_1993.initial i)
      as [[[w g] a] c].
    cbn [fst snd] in IH. destruct IH as (Hw & Hg & Ha & Hc).
    apply (blasi_euler_nonneg w g a c Hw Hg Ha Hc).
Qed.

Lemma blasi_orbit_products_grow (i : nat) :
  let x := orbit (blasi_1993.euler k dt s) blasi_1993.initial i in
  let y := orbit (blasi_1993.euler k dt s) blasi_1993.initial (S i) in
  x.1.1.2 <= y.1.1.2 /\ x.2 <= y.2.
Proof.
  cbn [orbit]. pose proof (blasi_orbit_nonneg i) as H. cbv zeta in H.
  destruct (orbit (blasi_1993.euler k dt s) blasi_1993.initial i)
    as [[[w g] a] c].
  cbn [fst snd] in H. destruct H as (Hw & Hg & Ha & Hc).
  apply (blasi_euler_nonneg w g a c Hw Hg Ha Hc).
Qed.

Lemma blasi_orbit_within (i : nat) :
  let x := orbit (blasi_1993.euler k dt s) blasi_1993.initial i in
  0 <= x.1.1.1 <= 1 /\ 0 <= x.1.1.2 <= 1 /\ 0 <= x.1.2 <= 1 /\
  0 <= x.2 <= 1.
Proof.
  pose proof (blasi_orbit_nonneg i) as H.
  pose proof (blasi_orbit_total k dt s i) as Ht.
  cbv zeta in H |- *. unfold total in Ht. lra.
Qed.

End BlasiStable.

(** X14: when dt >= 0 and both the wood constants and the tar constants of
    Blasi, times dt, stay at or below 1, every cell of the four series of
    [blasi_1993.py] is a mass fraction between 0 and 1, under either
    selector, and the gas and char series never decrease. *)
Theorem blasi_series_are_mass_fractions (T dt : R) (s : Z) (nt : nat) :
  T <> 0 -> s = 1%Z \/ s = 2%Z -> 0 <= dt ->
  (blasi_1993.K1 (blasi_1993.constants_at T)
   + blasi_1993.K2 (blasi_1993.constants_at T)
   + blasi_1993.K3 (blasi_1993.constants_at T)) * dt <= 1 ->
  (blasi_1993.K4 (blasi_1993.constants_at T)
   + blasi_1993.K5 (blasi_1993.constants_at T)) * dt <= 1 ->
  exists w g a c : list R,
    blasi_1993.products (fun w g a c => blasi_1993.blasi w g a c T dt s) nt
      = Ok (w, g, a, c) /\
    within 0 1 w /\ within 0 1 g /\ within 0 1 a /\ within 0 1 c /\
    non_decreasing g /\ non_decreasing c.
Proof.
  intros HT Hs Hdt Hw Ha. set (k := blasi_1993.constants_at T) in *.
  destruct (blasi_constants_pos T) as (H1 & H2 & H3 & H4 & H5).
  cbv zeta in H1, H2, H3, H4, H5. fold k in H1, H2, H3, H4, H5.
  rewrite (blasi_products_orbit _ (blasi_1993.euler k dt s))
    by (intros; apply blasi_returns; assumption).
  assert (Hin : forall i,
            let x := orbit (blasi_1993.euler k dt s) blasi_1993.initial i in
            0 <= x.1.1.1 <= 1 /\ 0 <= x.1.1.2 <= 1 /\ 0 <= x.1.2 <= 1 /\
            0 <= x.2 <= 1).
  { intros i. apply blasi_orbit_within; (assumption || lra). }
  assert (Hup : forall i,
            let x := orbit (blasi_1993.euler k dt s) blasi_1993.initial i in
            let y := orbit (blasi_1993.euler k dt s) blasi_1993.initial
                       (S i) in
            x.1.1.2 <= y.1.1.2 /\ x.2 <= y.2).
  { intros i. apply blasi_orbit_products_grow; (assumption || lra). }
  do 4 eexists. split; [reflexivity |].
  repeat apply conj;
    first [ apply within_map; intros i; apply (Hin i)
          | apply non_decreasing_map; intros i; apply (Hup i) ].
Qed.

Lemma blasi_K45_773 :
  let k := blasi_1993.constants_at 773 in
  blasi_1993.K4 k + blasi_1993.K5 k < 2.
Proof.
  cbn [blasi_1993.constants_at blasi_1993.K4 blasi_1993.K5].
  destruct (rate_bounds blasi_1993.A4 blasi_1993.E4 blasi_1993.Rgas 773 16 17)
    as [_ H4].
  { unfold blasi_1993.A4. lra. }
  { unfold blasi_1993.E4, blasi_1993.Rgas. cbn [INR]. lra. }
  destruct (rate_bounds blasi_1993.A5 blasi_1993.E5 blasi_1993.Rgas 773 16 17)
    as [_ H5].
  { unfold blasi_1993.A5. lra. }
  { unfold blasi_1993.E5, blasi_1993.Rgas. cbn [INR]. lra. }
  unfold blasi_1993.A4, blasi_1993.A5 in *. lra.
Qed.

Lemma blasi_series_are_mass_fractions_witness :
  exists w g a c : list R,
    blasi_1993.products
      (fun w g a c => blasi_1993.blasi w g a c 773 0.01 2) 2500
      = Ok (w, g, a, c) /\
    within 0 1 w /\ within 0 1 g /\ within 0 1 a /\ within 0 1 c /\
    non_decreasing g /\ non_decreasing c.
Proof.
  apply (blasi_series_are_mass_fractions 773 0.01 2 2500).
  - lra.
  - right. reflexivity.
  - lra.
  - pose proof blasi_K_773 as H. cbv zeta in H. lra.
  - pose proof blasi_K45_773 as H. cbv zeta in H. lra.
Defined.

Section LidenStable.

Variables (k : liden_1988.rate_constants) (dt : R).
Hypothesis K_pos : 0 <= liden_1988.K k.
Hypothesis K1_pos : 0 <= liden_1988.K1 k.
Hypothesis K2_pos : 0 <= liden_1988.K2 k.
Hypothesis K3_pos : 0 <= liden_1988.K3 k.
Hypothesis dt_pos : 0 <= dt.
Hypothesis wood_stable : liden_1988.K k * dt <= 1.
Hypothesis tar_stable : liden_1988.K2 k * dt <= 1.

Lemma liden_orbit_nonneg (i : nat) :
  let x := orbit (liden_1988.euler k dt 2) liden_1988.initial i in
  0 <= x.1.1.1 /\ 0 <= x.1.1.2 /\ 0 <= x.1.2 /\ 0 <= x.2.
Proof.
  induction i as [| i IH]; cbn [orbit].
  - cbn [liden_1988.initial fst snd]. repeat split; lra.
  - cbv zeta in IH.
    destruct (orbit (liden_1988.euler k dt 2) liden_1988.initial i)
      as [[[w g] a] c].
    cbn [fst snd] in IH. destruct IH as (Hw & Hg & Ha & Hc).
    assert (P1 : 0 <= liden_1988.K1 k * w * dt)
      by (apply Rmult_le_pos; [apply Rmult_le_pos |]; assumption).
    assert (P2 : 0 <= liden_1988.K2 k * a * dt)
      by (apply Rmult_le_pos; [apply Rmult_le_pos |]; assumption).
    assert (P3 : 0 <= liden_1988.K3 k * w * dt)
      by (apply Rmult_le_pos; [apply Rmult_le_pos |]; assumption).
    assert (Pw : 0 <= w * (1 - liden_1988.K k * dt))
      by (apply Rmult_le_pos; lra).
    assert (Pa : 0 <= a * (1 - liden_1988.K2 k * dt))
      by (apply Rmult_le_pos; lra).
    cbn [liden_1988.euler liden_1988.update Z.eqb Pos.eqb].
    cbv zeta. cbn [fst snd]. repeat split; nra.
Qed.

End LidenStable.

(** The primary scheme of Liden gives the wood consumed to tar and to
    gas+char in the proportion phistar : 1 - phistar. *)
Lemma liden_primary_orbit_yields (T dt : R) (i : nat) :
  let x := orbit (liden_1988.euler (liden_1988.constants_at T) dt 1)
             liden_1988.initial i in
  x.1.2 = liden_1988.phistar * (1 - x.1.1.1) /\
  x.2 = (1 - liden_1988.phistar) * (1 - x.1.1.1).
Proof.
  induction i as [| i IH]; cbn [orbit].
  - cbn [liden_1988.initial fst snd]. split; ring.
  - cbv zeta in IH.
    destruct (orbit _ liden_1988.initial i) as [[[w g] a] c].
    cbn [fst snd] in IH. destruct IH as [-> ->].
    cbn [liden_1988.euler liden_1988.update Z.eqb Pos.eqb
         liden_1988.constants_at liden_1988.K liden_1988.K1
         liden_1988.K2 liden_1988.K3].
    cbv zeta. cbn [fst snd]. split; ring.
Qed.

Lemma liden_g3_c3 : 0 < liden_1988.c3 < 1 /\ 0 < liden_1988.g3 < 1.
Proof.
  unfold liden_1988.g3, liden_1988.c3, liden_1988.FC, liden_1988.phistar.
  lra.
Qed.

Lemma liden_orbits_within (T dt : R) (i : nat) :
  0 <= dt ->
  liden_1988.K (liden_1988.constants_at T) * dt <= 1 ->
  liden_1988.K2 (liden_1988.constants_at T) * dt <= 1 ->
  let k := liden_1988.constants_at T in
  let x0 := orbit (liden_1988.euler k dt 1) liden_1988.initial i in
  let x1 := orbit (liden_1988.euler k dt 2) liden_1988.initial i in
  let x2 := orbit (liden_1988.euler2 k dt) liden_1988.initial2 i in
  (0 <= x0.1.1.1 <= 1 /\ 0 <= x0.1.1.2 <= 1 /\ 0 <= x0.1.2 <= 1 /\
   0 <= x0.2 <= 1) /\
  (0 <= x1.1.1.1 <= 1 /\ 0 <= x1.1.1.2 <= 1 /\ 0 <= x1.1.2 <= 1 /\
   0 <= x1.2 <= 1) /\
  (0 <= x2.1.1.1.1.1 <= 1 /\ 0 <= x2.1.1.1.1.2 <= 1 /\
   0 <= x2.1.1.1.2 <= 1 /\ 0 <= x2.1.1.2 <= 1 /\
   0 <= x2.1.2 <= 1 /\ 0 <= x2.2 <= 1) /\
  (x0.1.2 <= liden_1988.phistar /\ x1.1.2 <= liden_1988.phistar /\
   x2.1.1.1.2 <= liden_1988.phistar).
Proof.
  intros Hdt HK HK2. cbv zeta. set (k := liden_1988.constants_at T) in *.
  destruct (liden_constants_pos T) as (P & P1 & P2 & P3).
  cbv zeta in P, P1, P2, P3. fold k in P, P1, P2, P3.
  assert (Hn : let x := orbit (liden_1988.euler k dt 2)
                          liden_1988.initial i in
               0 <= x.1.1.1 /\ 0 <= x.1.1.2 /\ 0 <= x.1.2 /\ 0 <= x.2)
    by (apply liden_orbit_nonneg; (assumption || lra)).
  pose proof (liden_orbit_total_2 T dt i) as Ht. fold k in Ht.
  pose proof (liden_orbits_related k dt i) as Hr.
  pose proof (liden_primary_orbit_yields T dt i) as Hy. fold k in Hy.
  pose proof liden_g3_c3 as [Hc3 Hg3].
  cbv zeta in Hn, Hr, Hy. unfold total in Ht.
  destruct Hr as ((R1 & R2 & R3 & R4) & (S1 & S2 & S3 & S4) & (U1 & U2)).
  destruct Hy as [Y1 Y2]. destruct Hn as (N1 & N2 & N3 & N4).
  set (x0 := orbit (liden_1988.euler k dt 1) liden_1988.initial i) in *.
  set (x1 := orbit (liden_1988.euler k dt 2) liden_1988.initial i) in *.
  set (x2 := orbit (liden_1988.euler2 k dt) liden_1988.initial2 i) in *.
  unfold liden_1988.phistar in *.
  assert (G : 0 <= liden_1988.g3 * x1.2 <= x1.2) by nra.
  assert (C : 0 <= liden_1988.c3 * x1.2 <= x1.2) by nra.
  assert (GC : liden_1988.g3 * x1.2 + liden_1988.c3 * x1.2 = x1.2)
    by (unfold liden_1988.g3; ring).
  repeat split; lra.
Qed.

(** X15: when dt >= 0 and both rate constants of Liden that consume a
    species, K for wood and K2 for tar, times dt stay at or below 1, every
    cell of every series of [liden_1988.py] is a mass fraction between 0
    and 1: the three rows of wood, gas1, tar and gaschar, and the gas and
    char series. *)
Theorem liden_series_are_mass_fractions (T dt : R) (nt : nat) :
  T <> 0 -> 0 <= dt ->
  liden_1988.K (liden_1988.constants_at T) * dt <= 1 ->
  liden_1988.K2 (liden_1988.constants_at T) * dt <= 1 ->
  exists w0 w1 w2 g0 g1 g2 a0 a1 a2 c0 c1 c2 x y : list R,
    liden_1988.products
      (fun w g a c => liden_1988.liden w g a c T dt 1)
      (fun w g a c => liden_1988.liden w g a c T dt 2)
      (fun w g a c x y => liden_1988.liden2 w g a c x y T dt) nt
      = Ok ([w0; w1; w2], [g0; g1; g2], [a0; a1; a2], [c0; c1; c2], x, y) /\
    Forall (within 0 1)
      [w0; w1; w2; g0; g1; g2; a0; a1; a2; c0; c1; c2; x; y].
Proof.
  intros HT Hdt HK HK2.
  set (k := liden_1988.constants_at T) in *.
  rewrite (liden_products_orbit _ _ _
             (liden_1988.euler k dt 1) (liden_1988.euler k dt 2)
             (liden_1988.euler2 k dt)).
  2: intros; apply liden_returns; [assumption | left; reflexivity].
  2: intros; apply liden_returns; [assumption | right; reflexivity].
  2: intros; apply liden2_returns; assumption.
  do 14 eexists. split; [reflexivity |].
  repeat apply Forall_cons_2; try apply Forall_nil_2;
    apply within_map; intros i;
    pose proof (liden_orbits_within T dt i Hdt HK HK2) as H;
    cbv zeta in H; fold k in H; tauto.
Qed.

Lemma liden_K2_773 : liden_1988.K2 (liden_1988.constants_at 773) < 2.
Proof.
  cbn [liden_1988.constants_at liden_1988.K2].
  destruct (rate_bounds liden_1988.A2 liden_1988.E2 liden_1988.Rgas 773 16 17)
    as [_ H].
  { unfold liden_1988.A2. lra. }
  { unfold liden_1988.E2, liden_1988.Rgas. cbn [INR]. lra. }
  unfold liden_1988.A2 in *. lra.
Qed.

Lemma liden_K_773_stable :
  liden_1988.K (liden_1988.constants_at 773) * 0.01 <= 1.
Proof.
  pose proof liden_K_773 as H.
  cbn [liden_1988.constants_at liden_1988.K].
  unfold liden_1988.A, liden_1988.E, liden_1988.Rgas. lra.
Qed.

Lemma liden_series_are_mass_fractions_witness :
  exists w0 w1 w2 g0 g1 g2 a0 a1 a2 c0 c1 c2 x y : list R,
    liden_1988.products
      (fun w g a c => liden_1988.liden w g a c 773 0.01 1)
      (fun w g a c => liden_1988.liden w g a c 773 0.01 2)
      (fun w g a c x y => liden_1988.liden2 w g a c x y 773 0.01) 2500
      = Ok ([w0; w1; w2], [g0; g1; g2], [a0; a1; a2], [c0; c1; c2], x, y) /\
    Forall (within 0 1)
      [w0; w1; w2; g0; g1; g2; a0; a1; a2; c0; c1; c2; x; y].
Proof.
  apply (liden_series_are_mass_fractions 773 0.01 2500).
  - lra.
  - lra.
  - exact liden_K_773_stable.
  - pose proof liden_K2_773 as H. lra.
Defined.

(** X16: in the primary scheme of [liden_1988.py] the tar is the wood
    consumed so far times phistar = 0.703, in every cell, whatever dt is.
    When dt >= 0 and K * dt and K2 * dt are at most 1, no tar cell of any of
    the three rows exceeds that maximum theoretical tar yield. *)
Theorem liden_tar_yield_is_bounded (T dt : R) (nt : nat) :
  T <> 0 ->
  exists (w0 w1 w2 : list R) (g : list (list R)) (a0 a1 a2 : list R)
         (c : list (list R)) (x y : list R),
    liden_1988.products
      (fun w g a c => liden_1988.liden w g a c T dt 1)
      (fun w g a c => liden_1988.liden w g a c T dt 2)
      (fun w g a c x y => liden_1988.liden2 w g a c x y T dt) nt
      = Ok ([w0; w1; w2], g, [a0; a1; a2], c, x, y) /\
    (forall (i : nat) (p q : R), w0 !! i = Some p -> a0 !! i = Some q ->
       q = 0.703 * (1 - p)) /\
    (0 <= dt ->
     liden_1988.K (liden_1988.constants_at T) * dt <= 1 ->
     liden_1988.K2 (liden_1988.constants_at T) * dt <= 1 ->
     within 0 0.703 a0 /\ within 0 0.703 a1 /\ within 0 0.703 a2).
Proof.
  intros HT.
  set (k := liden_1988.constants_at T) in *.
  rewrite (liden_products_orbit _ _ _
             (liden_1988.euler k dt 1) (liden_1988.euler k dt 2)
             (liden_1988.euler2 k dt)).
  2: intros; apply liden_returns; [assumption | left; reflexivity].
  2: intros; apply liden_returns; [assumption | right; reflexivity].
  2: intros; apply liden2_returns; assumption.
  do 10 eexists. split; [reflexivity |]. split.
  - intros i p q Hp Hq.
    apply lookup_map_seq in Hp as [-> _]. apply lookup_map_seq in Hq as [-> _].
    apply (liden_primary_orbit_yields T dt i).
  - intros Hdt HK HK2.
    refine (conj _ (conj _ _)); apply within_map; intros i;
      pose proof (liden_orbits_within T dt i Hdt HK HK2) as H;
      cbv zeta in H; fold k in H; unfold liden_1988.phistar in H; tauto.
Qed.

Lemma liden_tar_yield_is_bounded_witness :
  exists (w0 w1 w2 : list R) (g : list (list R)) (a0 a1 a2 : list R)
         (c : list (list R)) (x y : list R),
    liden_1988.products
      (fun w g a c => liden_1988.liden w g a c 773 0.01 1)
      (fun w g a c => liden_1988.liden w g a c 773 0.01 2)
      (fun w g a c x y => liden_1988.liden2 w g a c x y 773 0.01) 2500
      = Ok ([w0; w1; w2], g, [a0; a1; a2], c, x, y) /\
    (forall (i : nat) (p q : R), w0 !! i = Some p -> a0 !! i = Some q ->
       q = 0.703 * (1 - p)) /\
    within 0 0.703 a0 /\ within 0 0.703 a1 /\ within 0 0.703 a2.
Proof.
  destruct (liden_tar_yield_is_bounded 773 0.01 2500)
    as (w0 & w1 & w2 & g & a0 & a1 & a2 & c & x & y & E & Hid & Hin);
    [lra |].
  exists w0, w1, w2, g, a0, a1, a2, c, x, y.
  split; [exact E |]. split; [exact Hid |].
  apply Hin; [lra | exact liden_K_773_stable |].
  pose proof liden_K2_773 as H. lra.
Defined.
